(** * peg: the QEMU machine driver (pkg/machine/qemu.go)

    A shallow embedding of the QEMU back end of peg: the argument
    synthesizer of [Create] (drive and removable-media tokens, the option
    block, binary resolution, auto-provisioning of disks), the monitor
    socket commands [Screenshot] and [DetachCD], and [Clean].

    Strings are Rocq [string]s (one [ascii] per byte, as Go strings of
    ASCII text); Go's [fmt] [%d] is [show_nat]; Go's [path.Join] and
    [filepath.Join] (identical on Unix) are [path_Join]; effects are
    recorded in an explicit trace of events. *)

From Stdlib Require Import String Ascii List Arith Lia Bool.
From Stdlib Require Import Numbers.DecimalString DecimalNat.
Import ListNotations.
Open Scope list_scope.
Open Scope string_scope.

(** ** Go's formatting and string helpers *)

(** [fmt.Sprintf("%d", n)] for a non-negative integer. *)
Definition show_nat (n : nat) : string :=
  NilEmpty.string_of_uint (Nat.to_uint n).

(** Decimal reading, used to observe boot priorities in tokens. *)
Definition parse_nat (s : string) : option nat :=
  option_map Nat.of_uint (NilEmpty.uint_of_string s).

(** [strings.Split(s, sep)] for a one-character separator. *)
Fixpoint split (c : ascii) (s : string) : list string :=
  match s with
  | EmptyString => [EmptyString]
  | String x s' =>
      if Ascii.eqb x c then EmptyString :: split c s'
      else match split c s' with
           | h :: t => String x h :: t
           | [] => [String x EmptyString]
           end
  end.

(** [strings.TrimPrefix]-like test: [Some rest] when [p] is a prefix. *)
Fixpoint strip_prefix (p s : string) : option string :=
  match p, s with
  | EmptyString, _ => Some s
  | String a p', String b s' => if Ascii.eqb a b then strip_prefix p' s' else None
  | String _ _, EmptyString => None
  end.

(** [strings.Contains(s, sub)]. *)
Fixpoint contains (s sub : string) : bool :=
  match strip_prefix sub s with
  | Some _ => true
  | None => match s with
            | EmptyString => false
            | String _ s' => contains s' sub
            end
  end.

(** [strings.Join(l, sep)]. *)
Fixpoint join_with (sep : string) (l : list string) : string :=
  match l with
  | [] => EmptyString
  | [x] => x
  | x :: l' => x ++ sep ++ join_with sep l'
  end.

(** ** The machine configuration (pkg/machine/types.MachineConfig)

    Only the fields the QEMU driver reads. *)
Record MachineConfig := {
  ID : string;
  StateDir : string;
  Drives : list string;
  DriveSizes : list string;
  AutoDriveSetup : bool;
  ISO : string;
  DataSource : string;
  Process : string;
  Arch : string;
  Memory : string;
  CPU : string;
  Display : string;
  DisableDefaultNetworking : bool;
  SSHPort : string;
  CPUType : string;
  Args : list string
}.

(** ** [genDrives], the closure inside [Create]

    The closure captures [userDrives] and threads three locals:
    [allDrives], [scsiAdded] and [id]. *)
Record GenState := {
  allDrives : list string;
  scsiAdded : bool;
  id : nat
}.

Definition gen_init : GenState := {| allDrives := []; scsiAdded := false; id := 0 |}.

(** One iteration of [for i, d := range userDrives]. *)
Definition user_drive_step (st : GenState) (i_d : nat * string) : GenState :=
  let (i, d) := i_d in
  let driveID := "drv" ++ show_nat (id st) in
  {| allDrives := app (allDrives st)
       ["-drive"; "if=none,id=" ++ driveID ++ ",file=" ++ d;
        "-device"; "virtio-blk-pci,drive=" ++ driveID ++ ",bootindex=" ++ show_nat (i + 1)];
     scsiAdded := scsiAdded st;
     id := S (id st) |}.

Definition scsi_controller : string := "virtio-scsi-pci,id=scsi0".

(** [addSCSIIfNeeded]. *)
Definition addSCSIIfNeeded (st : GenState) : GenState :=
  if scsiAdded st then st
  else {| allDrives := app (allDrives st) ["-device"; scsi_controller];
          scsiAdded := true;
          id := id st |}.

(** The block for a removable medium: the primary ISO with [bootindex=50]
    and the data source with [bootindex=60]. *)
Definition cdrom_step (file bootindex : string) (st : GenState) : GenState :=
  if String.eqb file "" then st
  else
    let st1 := addSCSIIfNeeded st in
    let driveID := "drv" ++ show_nat (id st1) in
    {| allDrives := app (allDrives st1)
         ["-drive"; "if=none,id=" ++ driveID ++ ",media=cdrom,file=" ++ file;
          "-device"; "scsi-cd,drive=" ++ driveID ++ ",bus=scsi0.0,bootindex=" ++ bootindex];
       scsiAdded := scsiAdded st1;
       id := S (id st1) |}.

(** [for i, d := range l] enumerates [(0, l[0]), (1, l[1]), ...]. *)
Definition enumerate {A} (l : list A) : list (nat * A) := combine (seq 0 (length l)) l.

Definition genDrives (userDrives : list string) (m : MachineConfig) : list string :=
  let st := fold_left user_drive_step (enumerate userDrives) gen_init in
  let st := cdrom_step (ISO m) "50" st in
  let st := cdrom_step (DataSource m) "60" st in
  allDrives st.

(** ** Observing boot priorities in a token list *)

(** Tokens read as (flag, value) pairs. *)
Fixpoint pairs (l : list string) : list (string * string) :=
  match l with
  | a :: b :: r => (a, b) :: pairs r
  | _ => []
  end.

(** The [bootindex=] property of a [-device] value. *)
Definition bootindex_of (v : string) : option nat :=
  let fix first (fs : list string) :=
    match fs with
    | [] => None
    | f :: fs' => match strip_prefix "bootindex=" f with
                  | Some n => parse_nat n
                  | None => first fs'
                  end
    end in
  first (split "," v).

(** The boot priorities of all [-device] tokens, in order. *)
Definition device_priorities (toks : list string) : list nat :=
  flat_map (fun fv : string * string => let (f, v) := fv in
              if String.eqb f "-device" then
                match bootindex_of v with Some k => [k] | None => [] end
              else @nil nat) (pairs toks).

(** [user_pair k d]: the four tokens the loop emits for drive [d] at
    index [k]; a helper for stating the effect of the loop. *)
Definition user_pair (k : nat) (d : string) : list string :=
  ["-drive"; "if=none,id=" ++ ("drv" ++ show_nat k) ++ ",file=" ++ d;
   "-device"; "virtio-blk-pci,drive=" ++ ("drv" ++ show_nat k) ++ ",bootindex=" ++ show_nat (k + 1)].

Fixpoint user_tokens (k : nat) (l : list string) : list string :=
  match l with
  | [] => []
  | d :: l' => app (user_pair k d) (user_tokens (S k) l')
  end.

Fixpoint has_char (c : ascii) (s : string) : bool :=
  match s with
  | EmptyString => false
  | String x s' => Ascii.eqb x c || has_char c s'
  end.

(** ** Go's [path.Clean] and [path.Join]

    [path.Clean] works lexically on the slash-separated elements: empty and
    [.] elements vanish, [..] removes the previous element (or is dropped
    at the root, or kept when nothing can be removed in a relative path).
    [filepath.Join] on Unix gives the same results as [path.Join]. *)
Definition clean_step (rooted : bool) (st : list string) (seg : string) : list string :=
  if String.eqb seg "" || String.eqb seg "." then st
  else if String.eqb seg ".." then
    match st with
    | x :: r => if String.eqb x ".." then ".." :: st else r
    | [] => if rooted then [] else [".."]
    end
  else seg :: st.

Definition is_rooted (p : string) : bool :=
  match p with
  | String c _ => Ascii.eqb c "/"
  | EmptyString => false
  end.

Definition path_Clean (p : string) : string :=
  if String.eqb p "" then "."
  else
    let rooted := is_rooted p in
    let st := fold_left (clean_step rooted) (split "/" p) [] in
    let body := join_with "/" (rev st) in
    if rooted then "/" ++ body
    else if String.eqb body "" then "." else body.

Definition path_Join (elem : list string) : string :=
  let size := fold_left (fun n e => n + String.length e) elem 0 in
  if Nat.eqb size 0 then ""
  else
    let buf := fold_left (fun buf e =>
                 if negb (Nat.eqb (String.length buf) 0) || negb (String.eqb e "") then
                   (if negb (Nat.eqb (String.length buf) 0) then buf ++ "/" else buf) ++ e
                 else buf) elem "" in
    path_Clean buf.

(** ** Effects: a trace of events, errors, and a drain that may not end *)

Inductive event :=
| EvMkdirAll (dir : string)                         (* os.MkdirAll *)
| EvSH (cmd : string)                               (* utils.SH *)
| EvStat (path : string)                            (* os.Stat *)
| EvLookPath (file : string)                        (* exec.LookPath *)
| EvLaunch (name : string) (args : list string) (stateDir : string)
                                                    (* process.New(...).Run() *)
| EvDial (path : string)                            (* net.Dial("unix", path) *)
| EvCreateTemp (dir pattern : string)               (* os.CreateTemp *)
| EvFileClose (name : string)                       (* f.Close() *)
| EvRemove (name : string)                          (* os.Remove *)
| EvWrite (line : string)                           (* fmt.Fprint(conn, line) *)
| EvSetReadDeadline                                 (* conn.SetReadDeadline *)
| EvRead                                            (* conn.Read *)
| EvConnClose.                                      (* deferred conn.Close() *)

Inductive outcome (A : Type) :=
| Ret (a : A)
| Fail (err : string)
| Blocked.        (* the drain loop is still reading: no error came yet *)
Arguments Ret {A}. Arguments Fail {A}. Arguments Blocked {A}.

Inductive result (A : Type) := Ok (a : A) | Err (e : string).
Arguments Ok {A}. Arguments Err {A}.

Definition M (A : Type) : Type := list event -> list event * outcome A.

Definition ret {A} (a : A) : M A := fun tr => (tr, Ret a).
Definition fail {A} (e : string) : M A := fun tr => (tr, Fail e).
Definition bind {A B} (m : M A) (k : A -> M B) : M B :=
  fun tr => match m tr with
            | (tr', Ret a) => k a tr'
            | (tr', Fail e) => (tr', Fail e)
            | (tr', Blocked) => (tr', Blocked)
            end.
Definition emit (ev : event) : M unit := fun tr => (app tr [ev], Ret tt).

Notation "x <- m ;; k" := (bind m (fun x => k)) (at level 61, m at next level, right associativity).
Notation "m ;; k" := (bind m (fun _ => k)) (at level 61, right associativity).

(** [fmt.Errorf(prefix + "%w", err)]. *)
Definition wrap_err {A} (prefix : string) (m : M A) : M A :=
  fun tr => match m tr with
            | (tr', Fail e) => (tr', Fail (prefix ++ e))
            | r => r
            end.

(** [defer conn.Close()]: runs when the function returns. *)
Definition with_conn_close {A} (m : M A) : M A :=
  fun tr => match m tr with
            | (tr', Blocked) => (tr', Blocked)
            | (tr', o) => (app tr' [EvConnClose], o)
            end.

Definition run {A} (m : M A) : list event * outcome A := m [].

(** The outside world, as answers to the calls the driver makes. *)
Record World := {
  mkdirall_err : string -> option string;
  sh : string -> string * option string;         (* output, error *)
  stat_ok : string -> bool;
  lookpath : string -> result string;
  run_err : option string;
  dial_err : string -> option string;
  create_temp : string -> string -> result string;  (* the file's name *)
  write : string -> nat * option string;         (* bytes written, error *)
  deadline_err : option string;
  reads : list (option string)                   (* [None]: data, [Some e]: error *)
}.

(** ** The QEMU driver

    The receiver [q *QEMU] is passed as its [machineConfig], the only field
    these methods read, and the outside world as a [World]. *)

Definition crlf : string := String (Ascii.ascii_of_nat 13) (String (Ascii.ascii_of_nat 10) "").

(** [monitorSockFile]. *)
Definition monitorSockFile (m : MachineConfig) : string :=
  path_Join [StateDir m; "qemu-monitor.sock"].

Definition commonPaths : list string :=
  ["/home/linuxbrew/.linuxbrew/bin/"; "/usr/local/bin/"; "/usr/bin/";
   "/opt/homebrew/bin/"; "/usr/local/homebrew/bin/"].

(** The loop of [findQEMUBinary] over [commonPaths]. *)
Fixpoint search_common (w : World) (qemuBinary : string) (ps : list string) : M (option string) :=
  match ps with
  | [] => ret None
  | p :: ps' =>
      emit (EvStat (path_Join [p; qemuBinary])) ;;
      if stat_ok w (path_Join [p; qemuBinary]) then ret (Some (path_Join [p; qemuBinary]))
      else search_common w qemuBinary ps'
  end.

Definition findQEMUBinary (w : World) (arch : string) : M string :=
  let qemuBinary := "qemu-system-" ++ arch in
  found <- search_common w qemuBinary commonPaths ;;
  match found with
  | Some p => ret p
  | None =>
      emit (EvLookPath qemuBinary) ;;
      match lookpath w qemuBinary with
      | Ok p => ret p
      | Err e => fail (qemuBinary ++ " not found in common paths or PATH: " ++ e)
      end
  end.

Section Create.

(** [types.DefaultDriveSize], declared outside this file. *)
Variable DefaultDriveSize : string.

(** [driveSizes]. *)
Definition driveSizes (m : MachineConfig) : list string :=
  let sizes := map (fun s => s ++ "M") (DriveSizes m) in
  if Nat.eqb (length sizes) 0 then [DefaultDriveSize ++ "M"] else sizes.

(** [CreateDisk]. *)
Definition CreateDisk (w : World) (m : MachineConfig) (diskname size : string) : M unit :=
  emit (EvMkdirAll (StateDir m)) ;;
  match mkdirall_err w (StateDir m) with
  | Some e => fail e
  | None =>
      let cmd := "qemu-img create -f qcow2 " ++ path_Join [StateDir m; diskname] ++ " " ++ size in
      emit (EvSH cmd) ;;
      match sh w cmd with
      | (_, None) => ret tt
      | (out, Some e) => fail (out ++ " : " ++ e)
      end
  end.

Definition disk_filename (m : MachineConfig) (i : nat) : string :=
  ID m ++ "-" ++ show_nat i ++ ".img".

(** [for i, s := range driveSizes { ... }] in [Create]. *)
Fixpoint provision_loop (w : World) (m : MachineConfig) (i : nat) (sizes : list string)
    (userDrives : list string) : M (list string) :=
  match sizes with
  | [] => ret userDrives
  | s :: sizes' =>
      wrap_err ("creating disk with size " ++ s ++ ": ") (CreateDisk w m (disk_filename m i) s) ;;
      provision_loop w m (S i) sizes' (app userDrives [path_Join [StateDir m; disk_filename m i]])
  end.

Definition provision_stage (w : World) (m : MachineConfig) : M (list string) :=
  if AutoDriveSetup m && Nat.eqb (length (Drives m)) 0
  then provision_loop w m 0 (driveSizes m) (Drives m)
  else ret (Drives m).

Definition resolve_stage (w : World) (m : MachineConfig) : M string :=
  if negb (String.eqb (Process m) "") then ret (Process m)
  else wrap_err "failed to find QEMU binary: " (findQEMUBinary w (Arch m)).

(** The option block [opts] of [Create]. *)
Definition create_opts (m : MachineConfig) : list string :=
  let display := if String.eqb (Display m) "" then "-nographic" else Display m in
  let opts := ["-m"; Memory m; "-smp"; "cores=" ++ CPU m; "-rtc"; "base=utc,clock=rt";
               "-monitor"; "unix:" ++ monitorSockFile m ++ ",server,nowait";
               "-device"; "virtio-serial"] in
  let opts := if negb (DisableDefaultNetworking m)
              then app opts ["-nic"; "user,hostfwd=tcp::" ++ SSHPort m ++ "-:22"] else opts in
  let opts := app opts (split " " display) in
  let opts := if negb (String.eqb (CPUType m) "") then app opts ["-cpu"; CPUType m]
              else if String.eqb (Arch m) "aarch64" then app opts ["-cpu"; "max"]
              else opts in
  let opts := app opts (Args m) in
  let opts := if String.eqb (Arch m) "aarch64"
              then app opts ["-machine"; "virt,accel=tcg,acpi=on,gic-version=2"] else opts in
  app opts ["-boot"; "order=dc,menu=on"].

(** [Create]. The process is built with [WithArgs(opts...)] and then
    [WithArgs(genDrives(...)...)], each appending to the argument list (the
    log line before it prints [append(opts, genDrives(...)...)]). *)
Definition Create (w : World) (m : MachineConfig) : M unit :=
  userDrives <- provision_stage w m ;;
  processName <- resolve_stage w m ;;
  emit (EvLaunch processName (app (create_opts m) (genDrives userDrives m)) (StateDir m)) ;;
  match run_err w with
  | Some e => fail e
  | None => ret tt
  end.

End Create.

(** The drain loop: read until a read fails. *)
Fixpoint drain (rs : list (option string)) : M unit :=
  match rs with
  | [] => fun tr => (tr, Blocked)
  | r :: rs' => emit EvRead ;; match r with Some _ => ret tt | None => drain rs' end
  end.

Definition short_write_msg (n len : nat) : string :=
  "didn't send the full command (" ++ show_nat n ++ " out of " ++ show_nat len ++ " bytes)".

(** Writing a command line and draining the answer, as [Screenshot] and
    [DetachCD] both do after dialling. *)
Definition send_command (w : World) (cmd : string) : M unit :=
  emit (EvWrite cmd) ;;
  let (n, werr) := write w cmd in
  match werr with
  | Some e => fail e
  | None =>
      if negb (Nat.eqb n (String.length cmd)) then fail (short_write_msg n (String.length cmd))
      else
        emit EvSetReadDeadline ;;
        match deadline_err w with
        | Some e => fail e
        | None => drain (reads w)
        end
  end.

Definition Screenshot (w : World) (m : MachineConfig) : M string :=
  emit (EvDial (monitorSockFile m)) ;;
  match dial_err w (monitorSockFile m) with
  | Some e => fail e
  | None =>
      with_conn_close (
        emit (EvCreateTemp "" "qemu-screenshot-*.png") ;;
        match create_temp w "" "qemu-screenshot-*.png" with
        | Err e => fail e
        | Ok name =>
            emit (EvFileClose name) ;; emit (EvRemove name) ;;
            send_command w ("screendump " ++ name ++ crlf) ;;
            ret name
        end)
  end.

Definition DetachCD (w : World) (m : MachineConfig) : M unit :=
  emit (EvDial (monitorSockFile m)) ;;
  match dial_err w (monitorSockFile m) with
  | Some e => fail e
  | None => with_conn_close (send_command w ("eject -f ide0-cd0" ++ crlf))
  end.

(** The driver value: its configuration and the process handle [Create]
    stores (name and arguments of the launched process). *)
Record QEMU := {
  machineConfig : MachineConfig;
  process : option (string * list string)
}.

Definition Config (q : QEMU) : MachineConfig := machineConfig q.

(** ** [os.RemoveAll] on Unix (Go's [os/removeall_at.go])

    The file system is the list of its entries, each named by its clean
    absolute path (no symbolic links). The process runs in the directory
    [cwd] (a clean absolute path), against which the kernel resolves a
    relative path; without symbolic links it resolves [.] and [..]
    lexically, as [path.Clean] does. *)

(** [endsWithDot]: [.] itself, or a path whose last element is [.]. *)
Definition endsWithDot (path : string) : bool :=
  String.eqb path "." ||
  (Nat.leb 2 (String.length path) &&
   String.eqb (String.substring (String.length path - 2) 2 path) "/.").

(** The entry a path names, for a process running in [cwd]. *)
Definition abs_path (cwd p : string) : string :=
  if is_rooted p then path_Clean p else path_Join [cwd; p].

(** [p] is the directory [root] or lies below it. *)
Definition in_tree (root p : string) : bool :=
  String.eqb p root || String.prefix (if String.eqb root "/" then "/" else root ++ "/") p.

(** [RemoveAll(path)]: an empty path is a silent no-op; a path ending in
    [.] is refused with [EINVAL] before anything is removed ([rmdir] does
    not permit removing [.]); otherwise the tree at the resolved path is
    removed. The kernel's answers are the input [os_err]: [None] when every
    removal succeeds (or the path does not exist, which is no error);
    [Some (e, stuck)] when it reports error [e], the entries of the tree
    listed in [stuck] then staying in place. *)
Definition RemoveAll (cwd : string) (os_err : option (string * list string)) (path : string)
    (fs : list string) : list string * option string :=
  if String.eqb path "" then (fs, None)
  else if endsWithDot path then (fs, Some ("RemoveAll " ++ path ++ ": invalid argument"))
  else
    let root := abs_path cwd path in
    match os_err with
    | None => (filter (fun p => negb (in_tree root p)) fs, None)
    | Some (e, stuck) =>
        (filter (fun p => negb (in_tree root p) || existsb (String.eqb p) stuck) fs, Some e)
    end.

(** [Clean]: the driver value after the call, the file system, the error. *)
Definition Clean (cwd : string) (os_err : option (string * list string)) (q : QEMU)
    (fs : list string) : QEMU * list string * option string :=
  if negb (String.eqb (StateDir (machineConfig q)) "") then
    let (fs', err) := RemoveAll cwd os_err (StateDir (machineConfig q)) fs in (q, fs', err)
  else (q, fs, None).


(** ** Observations of a trace *)

(** The shell commands run, in order: the [qemu-img] calls that provision
    disk images. *)
Definition sh_cmds (tr : list event) : list string :=
  flat_map (fun ev => match ev with EvSH c => [c] | _ => [] end) tr.

Definition not_sh (ev : event) : bool := match ev with EvSH _ => false | _ => true end.
Definition not_launch (ev : event) : bool :=
  match ev with EvLaunch _ _ _ => false | _ => true end.
Definition not_read (ev : event) : bool := match ev with EvRead => false | _ => true end.

(** Neither a read deadline set nor a read: the drain was not started. *)
Definition no_drain (ev : event) : bool :=
  match ev with EvSetReadDeadline | EvRead => false | _ => true end.

(** A concrete configuration, used by the examples. *)
Definition example_config : MachineConfig :=
  {| ID := "vm"; StateDir := "/tmp/peg/vm"; Drives := []; DriveSizes := [];
     AutoDriveSetup := false; ISO := ""; DataSource := ""; Process := "";
     Arch := "x86_64"; Memory := "2096"; CPU := "2"; Display := "";
     DisableDefaultNetworking := false; SSHPort := "2222"; CPUType := "";
     Args := [] |}.

Definition media_config : MachineConfig :=
  {| ID := "vm"; StateDir := "/tmp/peg/vm"; Drives := []; DriveSizes := [];
     AutoDriveSetup := false; ISO := "install.iso"; DataSource := "datasource.iso";
     Process := ""; Arch := "x86_64"; Memory := "2096"; CPU := "2"; Display := "";
     DisableDefaultNetworking := false; SSHPort := "2222"; CPUType := "";
     Args := [] |}.

(** C2, as stated: one shared controller token, and the primary medium's
    priority (50) above every persistent drive's and below the secondary
    medium's (60). The primary and secondary media are the devices that
    follow the [-drive] tokens backed by [ISO m] and [DataSource m]. *)
Definition removable_media_claim (ds : list string) (m : MachineConfig) : Prop :=
  count_occ string_dec (genDrives ds m) scsi_controller = 1 /\
  exists disk_toks iso_dev data_dev,
    genDrives ds m =
      app disk_toks
        ["-device"; scsi_controller;
         "-drive"; "if=none,id=" ++ ("drv" ++ show_nat (length ds)) ++ ",media=cdrom,file=" ++ ISO m;
         "-device"; iso_dev;
         "-drive"; "if=none,id=" ++ ("drv" ++ show_nat (S (length ds))) ++ ",media=cdrom,file="
                   ++ DataSource m;
         "-device"; data_dev] /\
    bootindex_of iso_dev = Some 50 /\ bootindex_of data_dev = Some 60 /\
    (forall k, In k (device_priorities disk_toks) -> k < 50) /\ 50 < 60.

(** The drives handed to [genDrives] when [Create] gets that far: the
    provisioned images under auto-provisioning, the explicit drives
    otherwise. *)
Definition effective_drives (DefaultDriveSize : string) (m : MachineConfig) : list string :=
  if AutoDriveSetup m && Nat.eqb (length (Drives m)) 0
  then app (Drives m)
           (map (fun j => path_Join [StateDir m; disk_filename m j])
                (seq 0 (length (driveSizes DefaultDriveSize m))))
  else Drives m.

Definition not_lookpath (ev : event) : bool :=
  match ev with EvLookPath _ => false | _ => true end.

(** A world where everything succeeds and the binary is in [/usr/bin/]. *)
Definition example_world : World :=
  {| mkdirall_err := fun _ => None; sh := fun _ => ("", None);
     stat_ok := fun p => String.eqb p "/usr/bin/qemu-system-x86_64";
     lookpath := fun _ => Err "not found"; run_err := None;
     dial_err := fun _ => None;
     create_temp := fun _ _ => Ok "/tmp/qemu-screenshot-1.png";
     write := fun c => (String.length c, None); deadline_err := None;
     reads := [None; Some "i/o timeout"] |}.

Definition dq : string := String (Ascii.ascii_of_nat 34) "".

(** The error [exec.LookPath] returns for a file not found in [PATH]. *)
Definition go_lookpath_err (file : string) : string :=
  "exec: " ++ dq ++ file ++ dq ++ ": executable file not found in $PATH".

(** A world with no QEMU binary anywhere. *)
Definition nobin_world : World :=
  {| mkdirall_err := fun _ => None; sh := fun _ => ("", None);
     stat_ok := fun _ => false;
     lookpath := fun f => Err (go_lookpath_err f); run_err := None;
     dial_err := fun _ => None;
     create_temp := fun _ _ => Ok "/tmp/qemu-screenshot-1.png";
     write := fun c => (String.length c, None); deadline_err := None;
     reads := [Some "i/o timeout"] |}.

Definition auto_config : MachineConfig :=
  {| ID := "vm"; StateDir := "/tmp/peg/vm"; Drives := []; DriveSizes := ["10240"];
     AutoDriveSetup := true; ISO := ""; DataSource := ""; Process := "";
     Arch := "x86_64"; Memory := "2096"; CPU := "2"; Display := "";
     DisableDefaultNetworking := false; SSHPort := "2222"; CPUType := "";
     Args := [] |}.

Definition disk_config : MachineConfig :=
  {| ID := "vm"; StateDir := "/tmp/peg/vm"; Drives := ["/tmp/peg/disk.img"]; DriveSizes := [];
     AutoDriveSetup := false; ISO := ""; DataSource := "";
     Process := "/usr/bin/qemu-system-x86_64";
     Arch := "x86_64"; Memory := "2096"; CPU := "2"; Display := "";
     DisableDefaultNetworking := false; SSHPort := "2222"; CPUType := "";
     Args := [] |}.

(** C4, as stated: the boot directive is the last token pair of the
    arguments the process is launched with. *)
Definition boot_last_claim (DefaultDriveSize : string) (w : World) (m : MachineConfig) : Prop :=
  forall name args sd, In (EvLaunch name args sd) (fst (run (Create DefaultDriveSize w m))) ->
  exists pre, args = app pre ["-boot"; "order=dc,menu=on"].

(** C9, as stated, for its last part: the error names every searched location. *)
Definition names_locations_claim (DefaultDriveSize : string) (w : World) (m : MachineConfig) : Prop :=
  forall err, snd (run (Create DefaultDriveSize w m)) = Fail err ->
  forall p, In p commonPaths -> contains err p = true.

(** A world whose monitor connection takes only part of a write and
    reports the error the connection gave. *)
Definition short_write_world : World :=
  {| mkdirall_err := fun _ => None; sh := fun _ => ("", None);
     stat_ok := fun _ => false; lookpath := fun _ => Err "not found"; run_err := None;
     dial_err := fun _ => None;
     create_temp := fun _ _ => Ok "/tmp/qemu-screenshot-1.png";
     write := fun _ => (5, Some "write unix ->/tmp/peg/vm/qemu-monitor.sock: broken pipe");
     deadline_err := None; reads := [Some "i/o timeout"] |}.

(** C6, as stated, for [DetachCD]: a byte count different from the line
    length makes it fail with the count-reporting error, without reading. *)
Definition eject_partial_write_claim (w : World) (m : MachineConfig) : Prop :=
  dial_err w (monitorSockFile m) = None ->
  fst (write w ("eject -f ide0-cd0" ++ crlf)) <> String.length ("eject -f ide0-cd0" ++ crlf) ->
  snd (run (DetachCD w m)) =
    Fail (short_write_msg (fst (write w ("eject -f ide0-cd0" ++ crlf)))
                          (String.length ("eject -f ide0-cd0" ++ crlf))) /\
  forallb not_read (fst (run (DetachCD w m))) = true.

(** ** More observations *)

(** The value of the first comma-separated field of [v] that starts with
    [key], without the key: how QEMU reads a property of an option value. *)
Fixpoint first_field (key : string) (fs : list string) : option string :=
  match fs with
  | [] => None
  | f :: fs' => match strip_prefix key f with
                | Some r => Some r
                | None => first_field key fs'
                end
  end.

Definition field_of (key v : string) : option string := first_field key (split "," v).

(** The [key] property of every [flag] token's value, in order: with
    ["-drive"] and ["id="] the declared drive ids, with ["-device"] and
    ["drive="] the drives the devices attach. *)
Definition tokens_field (flag key : string) (toks : list string) : list string :=
  flat_map (fun fv : string * string => let (f, v) := fv in
              if String.eqb f flag then
                match field_of key v with Some r => [r] | None => [] end
              else @nil string) (pairs toks).

(** Events of disk provisioning ([os.MkdirAll], [qemu-img]). *)
Definition not_provision (ev : event) : bool :=
  match ev with EvMkdirAll _ | EvSH _ => false | _ => true end.

(** Events of binary resolution ([os.Stat], [exec.LookPath]). *)
Definition not_resolve (ev : event) : bool :=
  match ev with EvStat _ | EvLookPath _ => false | _ => true end.

Definition is_conn_close (ev : event) : bool :=
  match ev with EvConnClose => true | _ => false end.

(** The shell command [CreateDisk] runs for the [i]-th image of [Create]. *)
Definition qemu_img_cmd (m : MachineConfig) (i : nat) (size : string) : string :=
  "qemu-img create -f qcow2 " ++ path_Join [StateDir m; disk_filename m i] ++ " " ++ size.

(** ** [VM.Destroy] of the test matcher (src/unnamed, package matcher)

    [Destroy] runs the caller's [additionalCleanup], then, when the VM has
    a machine, stops it and cleans its state directory, returning the first
    error. The machine here is a QEMU driver; its [Stop] delegates to the
    process manager outside this repository, so its error is an input.
    The cleanup callback is given as its effect on the file system. *)
Definition Destroy (cwd : string) (os_err : option (string * list string))
    (additionalCleanup : list string -> list string) (machine : option QEMU)
    (stop_err : option string) (fs : list string) : list string * option string :=
  let fs := additionalCleanup fs in
  match machine with
  | None => (fs, None)
  | Some q =>
      match stop_err with
      | Some e => (fs, Some e)
      | None => let '(_, fs', err) := Clean cwd os_err q fs in (fs', err)
      end
  end.

(** C10, as stated: with an empty state directory [Clean] returns no error
    and removes nothing; with a non-empty one it removes exactly that
    directory's tree; the configuration is unchanged. *)
Definition clean_claim (cwd : string) (os_err : option (string * list string)) (q : QEMU)
    (fs : list string) : Prop :=
  Config (fst (fst (Clean cwd os_err q fs))) = Config q /\
  (StateDir (Config q) = "" ->
   snd (Clean cwd os_err q fs) = None /\ snd (fst (Clean cwd os_err q fs)) = fs) /\
  (StateDir (Config q) <> "" ->
   forall p, In p (snd (fst (Clean cwd os_err q fs))) <->
             In p fs /\ in_tree (abs_path cwd (StateDir (Config q))) p = false).

(** A driver whose state directory is written with a final [/.], and one
    with a final slash. *)
Definition state_dir_config (sd : string) : MachineConfig :=
  {| ID := "vm"; StateDir := sd; Drives := []; DriveSizes := [];
     AutoDriveSetup := false; ISO := ""; DataSource := ""; Process := "";
     Arch := "x86_64"; Memory := "2096"; CPU := "2"; Display := "";
     DisableDefaultNetworking := false; SSHPort := "2222"; CPUType := "";
     Args := [] |}.

Definition dot_dir_qemu : QEMU :=
  {| machineConfig := state_dir_config "/tmp/peg/vm/."; process := None |}.

Definition slash_dir_qemu : QEMU :=
  {| machineConfig := state_dir_config "/tmp/peg/vm/"; process := None |}.

Definition vm_fs : list string :=
  ["/tmp"; "/tmp/peg"; "/tmp/peg/vm"; "/tmp/peg/vm/vm-0.img"; "/tmp/peg/vm2"].

(** The names [drv<k>], ..., [drv<k+n-1>]. *)
Definition drv_names (k n : nat) : list string := map (fun j => "drv" ++ show_nat j) (seq k n).

(** 1 for a configured medium, 0 for an empty one. *)
Definition present (s : string) : nat := if String.eqb s "" then 0 else 1.

(** A world where [qemu-img] fails. *)
Definition failing_img_world : World :=
  {| mkdirall_err := fun _ => None; sh := fun _ => ("qemu-img: error", Some "exit status 1");
     stat_ok := fun _ => false; lookpath := fun _ => Err "not found"; run_err := None;
     dial_err := fun _ => None;
     create_temp := fun _ _ => Ok "/tmp/qemu-screenshot-1.png";
     write := fun c => (String.length c, None); deadline_err := None;
     reads := [Some "i/o timeout"] |}.

(* ================================================================== *)
(** * Proofs *)

(** ** Strings *)

Lemma string_app_assoc (a b c : string) : (a ++ b) ++ c = a ++ (b ++ c).
Proof. induction a as [|x a IH]; simpl; [reflexivity | now rewrite IH]. Qed.

Lemma has_char_app c a b : has_char c (a ++ b) = has_char c a || has_char c b.
Proof.
  induction a as [|x a IH]; simpl; [reflexivity|].
  now rewrite IH, orb_assoc.
Qed.

Lemma split_nonempty c s : split c s <> [].
Proof.
  induction s as [|x s IH]; simpl; [discriminate|].
  destruct (Ascii.eqb x c); [discriminate|].
  destruct (split c s); discriminate.
Qed.

Lemma split_no_sep c s : has_char c s = false -> split c s = [s].
Proof.
  induction s as [|x s IH]; simpl; [reflexivity|].
  intros H; apply orb_false_iff in H as [Hx Hs].
  rewrite Hx, (IH Hs); reflexivity.
Qed.

Lemma split_app_sep c a b :
  has_char c a = false -> split c (a ++ String c b) = a :: split c b.
Proof.
  induction a as [|x a IH]; simpl; intros H.
  - now rewrite Ascii.eqb_refl.
  - apply orb_false_iff in H as [Hx Ha].
    rewrite Hx, (IH Ha); reflexivity.
Qed.

Lemma strip_prefix_app p s : strip_prefix p (p ++ s) = Some s.
Proof. induction p as [|x p IH]; simpl; [reflexivity|]. now rewrite Ascii.eqb_refl. Qed.

Lemma show_nat_no_comma n : has_char "," (show_nat n) = false.
Proof. unfold show_nat. induction (Nat.to_uint n); simpl; auto. Qed.

Lemma parse_show_nat n : parse_nat (show_nat n) = Some n.
Proof.
  unfold parse_nat, show_nat. rewrite NilEmpty.usu. simpl.
  now rewrite DecimalNat.Unsigned.of_to.
Qed.

(** ** Boot priorities of the emitted [-device] values *)

Lemma bootindex_of_virtio k n :
  bootindex_of ("virtio-blk-pci,drive=" ++ ("drv" ++ show_nat k) ++ ",bootindex=" ++ show_nat n)
  = Some n.
Proof.
  replace ("virtio-blk-pci,drive=" ++ ("drv" ++ show_nat k) ++ ",bootindex=" ++ show_nat n)
    with ("virtio-blk-pci" ++ String "," (("drive=drv" ++ show_nat k)
            ++ String "," ("bootindex=" ++ show_nat n)))
    by (simpl; repeat rewrite string_app_assoc; reflexivity).
  unfold bootindex_of.
  rewrite split_app_sep by reflexivity.
  rewrite split_app_sep by (rewrite has_char_app, show_nat_no_comma; reflexivity).
  rewrite split_no_sep by (rewrite has_char_app, show_nat_no_comma; reflexivity).
  simpl. apply parse_show_nat.
Qed.

Lemma bootindex_of_scsi_cd k b :
  has_char "," b = false ->
  bootindex_of ("scsi-cd,drive=" ++ ("drv" ++ show_nat k) ++ ",bus=scsi0.0,bootindex=" ++ b)
  = parse_nat b.
Proof.
  intros Hb.
  replace ("scsi-cd,drive=" ++ ("drv" ++ show_nat k) ++ ",bus=scsi0.0,bootindex=" ++ b)
    with ("scsi-cd" ++ String "," (("drive=drv" ++ show_nat k)
            ++ String "," ("bus=scsi0.0" ++ String "," ("bootindex=" ++ b))))
    by (simpl; repeat rewrite string_app_assoc; reflexivity).
  unfold bootindex_of.
  rewrite split_app_sep by reflexivity.
  rewrite split_app_sep by (rewrite has_char_app, show_nat_no_comma; reflexivity).
  rewrite split_app_sep by reflexivity.
  rewrite split_no_sep by (rewrite has_char_app, Hb; reflexivity).
  simpl. reflexivity.
Qed.

Example genDrives_two_disks :
  genDrives ["a.img"; "b.img"] {| ID := "vm"; StateDir := "/s"; Drives := [];
    DriveSizes := []; AutoDriveSetup := false; ISO := "x.iso"; DataSource := "";
    Process := ""; Arch := "x86_64"; Memory := "2096"; CPU := "2"; Display := "";
    DisableDefaultNetworking := false; SSHPort := "2222"; CPUType := ""; Args := [] |}
  = ["-drive"; "if=none,id=drv0,file=a.img"; "-device"; "virtio-blk-pci,drive=drv0,bootindex=1";
     "-drive"; "if=none,id=drv1,file=b.img"; "-device"; "virtio-blk-pci,drive=drv1,bootindex=2";
     "-device"; "virtio-scsi-pci,id=scsi0";
     "-drive"; "if=none,id=drv2,media=cdrom,file=x.iso";
     "-device"; "scsi-cd,drive=drv2,bus=scsi0.0,bootindex=50"].
Proof. reflexivity. Qed.

Example device_priorities_two_disks :
  device_priorities ["-drive"; "if=none,id=drv0,file=a.img"; "-device"; "virtio-blk-pci,drive=drv0,bootindex=1";
     "-device"; "virtio-scsi-pci,id=scsi0"; "-device"; "scsi-cd,drive=drv2,bus=scsi0.0,bootindex=50"]
  = [1; 50].
Proof. reflexivity. Qed.

(** ** The user-drive loop of [genDrives] *)

Lemma fold_user_drives l k st :
  id st = k ->
  fold_left user_drive_step (combine (seq k (length l)) l) st =
  {| allDrives := app (allDrives st) (user_tokens k l);
     scsiAdded := scsiAdded st;
     id := k + length l |}.
Proof.
  revert k st. induction l as [|d l IH]; intros k st Hk; simpl.
  - destruct st; simpl in *; subst. now rewrite app_nil_r, Nat.add_0_r.
  - rewrite IH by (simpl; lia). simpl.
    rewrite <- app_assoc, Hk. f_equal. lia.
Qed.

Lemma genDrives_shape ds m :
  genDrives ds m =
  allDrives (cdrom_step (DataSource m) "60"
              (cdrom_step (ISO m) "50"
                {| allDrives := user_tokens 0 ds; scsiAdded := false; id := length ds |})).
Proof.
  unfold genDrives, enumerate. rewrite fold_user_drives by reflexivity. reflexivity.
Qed.

Lemma user_tokens_length k l : length (user_tokens k l) = 4 * length l.
Proof.
  revert k; induction l as [|d l IH]; intros k; simpl; [reflexivity|].
  rewrite IH. lia.
Qed.

Lemma pairs_app4 a b c d r : pairs (a :: b :: c :: d :: r) = (a, b) :: (c, d) :: pairs r.
Proof. reflexivity. Qed.

Lemma user_tokens_nth k l i d :
  nth_error l i = Some d ->
  nth_error (pairs (user_tokens k l)) (2 * i) =
    Some ("-drive", "if=none,id=drv" ++ show_nat (k + i) ++ ",file=" ++ d) /\
  nth_error (pairs (user_tokens k l)) (2 * i + 1) =
    Some ("-device", "virtio-blk-pci,drive=" ++ ("drv" ++ show_nat (k + i)) ++ ",bootindex="
                     ++ show_nat (k + i + 1)).
Proof.
  revert k i; induction l as [|d' l IH]; intros k i H; [destruct i; discriminate|].
  simpl user_tokens. unfold user_pair. simpl app. rewrite pairs_app4.
  destruct i as [|i]; simpl in H.
  - injection H as ->. rewrite Nat.add_0_r. split; reflexivity.
  - destruct (IH (S k) i H) as [H1 H2].
    replace (2 * S i + 1) with (S (S (2 * i + 1))) by lia.
    replace (2 * S i) with (S (S (2 * i))) by lia.
    cbn [nth_error]. rewrite H1, H2.
    replace (S k + i) with (k + S i) by lia. split; reflexivity.
Qed.

Lemma device_priorities_app4 a b c d r :
  device_priorities (a :: b :: c :: d :: r) =
  app (device_priorities [a; b; c; d]) (device_priorities r).
Proof. unfold device_priorities. simpl. rewrite app_nil_r. apply app_assoc. Qed.

Lemma device_priorities_app_even l r :
  Nat.even (length l) = true ->
  device_priorities (app l r) = app (device_priorities l) (device_priorities r).
Proof.
  intros H. unfold device_priorities.
  assert (Hp : pairs (app l r) = app (pairs l) (pairs r)).
  { apply Nat.even_spec in H as [n Hn]. revert l Hn.
    induction n as [|n IH]; intros [|a [|b l]] Hn; simpl in *; try lia; [reflexivity|].
    f_equal. apply IH. lia. }
  rewrite Hp. apply flat_map_app.
Qed.

Lemma user_pair_priorities k d : device_priorities (user_pair k d) = [k + 1].
Proof.
  pose proof (bootindex_of_virtio k (k + 1)) as H.
  unfold device_priorities, user_pair. simpl in H |- *. now rewrite H.
Qed.

Lemma user_tokens_priorities k l :
  device_priorities (user_tokens k l) = seq (k + 1) (length l).
Proof.
  revert k; induction l as [|d l IH]; intros k; [reflexivity|].
  cbn [user_tokens]. rewrite device_priorities_app_even by reflexivity.
  rewrite user_pair_priorities, IH. simpl. now rewrite Nat.add_succ_r.
Qed.

Lemma user_tokens_no_scsi k l : ~ In scsi_controller (user_tokens k l).
Proof.
  revert k; induction l as [|d l IH]; intros k; [simpl; tauto|].
  cbn [user_tokens]. unfold user_pair, scsi_controller. simpl app.
  intros H. repeat (destruct H as [H|H]; [simpl in H; discriminate H|]).
  exact (IH _ H).
Qed.

Lemma user_tokens_even k l : Nat.even (length (user_tokens k l)) = true.
Proof.
  rewrite user_tokens_length. replace (4 * length l) with (2 * (2 * length l)) by lia.
  apply Nat.even_mul.
Qed.

(** ** C1: persistent drives only *)

(** C1. With no primary install medium and no data source, the tokens of
    [genDrives] for [N] persistent drives are exactly [N] drive/device
    pairs ([4 N] tokens): the [i]-th pair (0-based) is the drive [drv<i>]
    backed by the [i]-th drive of the input, followed by its device with
    boot priority [i + 1]; the boot priorities of all devices are [1..N]
    in input order, and no SCSI controller token is emitted. *)
Theorem genDrives_persistent_only (ds : list string) (m : MachineConfig)
  (Hiso : ISO m = "") (Hdata : DataSource m = "") :
  length (genDrives ds m) = 4 * length ds /\
  (forall i d, nth_error ds i = Some d ->
     nth_error (pairs (genDrives ds m)) (2 * i) =
       Some ("-drive", "if=none,id=drv" ++ show_nat i ++ ",file=" ++ d) /\
     exists v, nth_error (pairs (genDrives ds m)) (2 * i + 1) = Some ("-device", v) /\
               bootindex_of v = Some (i + 1)) /\
  device_priorities (genDrives ds m) = seq 1 (length ds) /\
  ~ In scsi_controller (genDrives ds m).
Proof.
  rewrite genDrives_shape. unfold cdrom_step. rewrite Hiso, Hdata. simpl.
  split; [apply user_tokens_length|].
  split; [|split; [apply user_tokens_priorities | apply user_tokens_no_scsi]].
  intros i d H. destruct (user_tokens_nth 0 ds i d H) as [H1 H2].
  rewrite Nat.add_0_l in H1, H2. split; [exact H1|].
  eexists; split; [exact H2|apply bootindex_of_virtio].
Qed.

Lemma genDrives_persistent_only_witness :
  ISO example_config = "" /\ DataSource example_config = "" /\
  device_priorities (genDrives ["a.img"; "b.img"; "c.img"] example_config) = [1; 2; 3].
Proof.
  split; [reflexivity|]. split; [reflexivity|].
  exact (proj1 (proj2 (proj2 (genDrives_persistent_only ["a.img"; "b.img"; "c.img"]
                                example_config eq_refl eq_refl)))).
Defined.

(** ** C2: removable media behind one SCSI controller *)

Lemma app_same_tail_length {A} (l1 l2 r1 r2 : list A) :
  length r1 = length r2 -> app l1 r1 = app l2 r2 -> l1 = l2.
Proof.
  intros Hr Heq.
  assert (Hl : length l1 = length l2).
  { apply (f_equal (@length A)) in Heq. rewrite !length_app in Heq. lia. }
  revert l2 Hl Heq. induction l1 as [|a l1 IH]; intros [|b l2] Hl Heq;
    simpl in *; try discriminate; [reflexivity|].
  injection Heq as -> Heq. f_equal. apply IH; [lia|exact Heq].
Qed.

Lemma genDrives_media ds m :
  ISO m <> "" -> DataSource m <> "" ->
  genDrives ds m =
    app (user_tokens 0 ds)
      ["-device"; scsi_controller;
       "-drive"; "if=none,id=" ++ ("drv" ++ show_nat (length ds)) ++ ",media=cdrom,file=" ++ ISO m;
       "-device"; "scsi-cd,drive=" ++ ("drv" ++ show_nat (length ds)) ++ ",bus=scsi0.0,bootindex=" ++ "50";
       "-drive"; "if=none,id=" ++ ("drv" ++ show_nat (S (length ds))) ++ ",media=cdrom,file="
                 ++ DataSource m;
       "-device"; "scsi-cd,drive=" ++ ("drv" ++ show_nat (S (length ds))) ++ ",bus=scsi0.0,bootindex="
                  ++ "60"].
Proof.
  intros Hiso Hdata. rewrite genDrives_shape. unfold cdrom_step, addSCSIIfNeeded.
  rewrite (proj2 (String.eqb_neq _ _) Hiso), (proj2 (String.eqb_neq _ _) Hdata).
  cbn [allDrives scsiAdded id negb]. rewrite <- !app_assoc. reflexivity.
Qed.

(** C2 (counterexample). With fifty persistent drives the fiftieth drive
    gets [bootindex=50], the priority of the primary medium: the primary
    medium is then not strictly below every persistent drive. *)
Lemma removable_media_claim_fails_at_50_drives :
  ~ removable_media_claim (repeat "disk.img" 50) media_config.
Proof.
  intros [_ [dt [iso [dd [Heq [_ [_ [Hlt _]]]]]]]].
  rewrite genDrives_media in Heq by discriminate.
  apply app_same_tail_length in Heq; [|reflexivity].
  subst dt. specialize (Hlt 50). rewrite user_tokens_priorities in Hlt.
  rewrite repeat_length in Hlt.
  assert (H : In 50 (seq (0 + 1) 50)) by (apply in_seq; lia).
  specialize (Hlt H). lia.
Qed.

(** C2 (amended). With at least one and fewer than fifty persistent
    drives and both removable media configured, [genDrives] emits exactly
    one SCSI controller token, the primary medium's device has priority 50,
    above every persistent drive's (which are [1..N]), and the secondary
    medium's has 60. *)
Theorem genDrives_removable_media (ds : list string) (m : MachineConfig)
  (Hne : ds <> []) (Hlt : length ds < 50)
  (Hiso : ISO m <> "") (Hdata : DataSource m <> "") :
  removable_media_claim ds m.
Proof.
  unfold removable_media_claim. rewrite (genDrives_media ds m Hiso Hdata). split.
  - rewrite count_occ_app, (proj1 (count_occ_not_In _ _ _) (user_tokens_no_scsi 0 ds)).
    unfold scsi_controller.
    rewrite count_occ_cons_neq by discriminate.
    rewrite count_occ_cons_eq by reflexivity.
    simpl. reflexivity.
  - do 3 eexists. split; [reflexivity|].
    rewrite !bootindex_of_scsi_cd by reflexivity.
    split; [reflexivity|]. split; [reflexivity|]. split; [|lia].
    intros k Hk. rewrite user_tokens_priorities, in_seq in Hk. lia.
Qed.

Lemma genDrives_removable_media_witness :
  ["a.img"] <> [] /\ length ["a.img"] < 50 /\
  ISO media_config <> "" /\ DataSource media_config <> "" /\
  removable_media_claim ["a.img"] media_config.
Proof.
  split; [discriminate|]. split; [simpl; lia|].
  split; [discriminate|]. split; [discriminate|].
  apply genDrives_removable_media; [discriminate|simpl; lia|discriminate|discriminate].
Defined.

(** ** Traces: which events a computation may add *)

(** [m] only appends events satisfying [P] to the trace it is run from. *)
Definition only_events (P : event -> bool) {A} (m : M A) : Prop :=
  forall tr, exists t, fst (m tr) = app tr t /\ forallb P t = true.

Section OnlyEvents.
Variable P : event -> bool.

Lemma only_ret {A} (a : A) : only_events P (ret a).
Proof. intros tr. exists []. now rewrite app_nil_r. Qed.

Lemma only_fail {A} e : only_events P (@fail A e).
Proof. intros tr. exists []. now rewrite app_nil_r. Qed.

Lemma only_emit ev : P ev = true -> only_events P (emit ev).
Proof. intros H tr. exists [ev]. simpl. now rewrite H. Qed.

Lemma only_bind {A B} (m : M A) (k : A -> M B) :
  only_events P m -> (forall a, only_events P (k a)) -> only_events P (bind m k).
Proof.
  intros Hm Hk tr. destruct (Hm tr) as [t1 [E1 F1]]. unfold bind.
  destruct (m tr) as [tr1 [a|e|]]; simpl in *; subst tr1;
    [|exists t1; split; auto..].
  destruct (Hk a (app tr t1)) as [t2 [E2 F2]].
  exists (app t1 t2). rewrite E2, app_assoc. split; [reflexivity|].
  rewrite forallb_app, F1, F2. reflexivity.
Qed.

Lemma only_wrap_err {A} pre (m : M A) : only_events P m -> only_events P (wrap_err pre m).
Proof.
  intros Hm tr. destruct (Hm tr) as [t [E F]]. unfold wrap_err.
  destruct (m tr) as [tr1 [a|e|]]; simpl in *; exists t; auto.
Qed.

Lemma only_search_common w b ps :
  (forall p, P (EvStat p) = true) -> only_events P (search_common w b ps).
Proof.
  intros HS. induction ps as [|p ps IH]; simpl; [apply only_ret|].
  apply only_bind; [apply only_emit, HS|]. intros _.
  destruct (stat_ok w _); [apply only_ret|apply IH].
Qed.

Lemma only_findQEMUBinary w arch :
  (forall p, P (EvStat p) = true) -> (forall f, P (EvLookPath f) = true) ->
  only_events P (findQEMUBinary w arch).
Proof.
  intros HS HL. unfold findQEMUBinary. apply only_bind; [now apply only_search_common|].
  intros [p|]; [apply only_ret|]. apply only_bind; [apply only_emit, HL|]. intros _.
  destruct (lookpath w _); [apply only_ret|apply only_fail].
Qed.

Lemma only_resolve_stage w m :
  (forall p, P (EvStat p) = true) -> (forall f, P (EvLookPath f) = true) ->
  only_events P (resolve_stage w m).
Proof.
  intros HS HL. unfold resolve_stage. destruct (negb _); [apply only_ret|].
  apply only_wrap_err, only_findQEMUBinary; assumption.
Qed.

Lemma only_provision_loop w m i sizes acc :
  (forall d, P (EvMkdirAll d) = true) -> (forall c, P (EvSH c) = true) ->
  only_events P (provision_loop w m i sizes acc).
Proof.
  intros HM HSH. revert i acc. induction sizes as [|s sizes IH]; intros i acc; simpl;
    [apply only_ret|].
  apply only_bind; [|intros _; apply IH].
  apply only_wrap_err. unfold CreateDisk. apply only_bind; [apply only_emit, HM|]. intros _.
  destruct (mkdirall_err w _); [apply only_fail|].
  apply only_bind; [apply only_emit, HSH|]. intros _.
  destruct (sh w _) as [out [e|]]; [apply only_fail|apply only_ret].
Qed.

Lemma only_provision_stage dflt w m :
  (forall d, P (EvMkdirAll d) = true) -> (forall c, P (EvSH c) = true) ->
  only_events P (provision_stage dflt w m).
Proof.
  intros HM HSH. unfold provision_stage. destruct (_ && _); [|apply only_ret].
  now apply only_provision_loop.
Qed.

End OnlyEvents.

(** ** C3: auto-provisioning of disk images *)

Lemma sh_cmds_app a b : sh_cmds (app a b) = app (sh_cmds a) (sh_cmds b).
Proof. apply flat_map_app. Qed.

Lemma sh_cmds_not_sh t : forallb not_sh t = true -> sh_cmds t = [].
Proof.
  induction t as [|ev t IH]; simpl; [reflexivity|].
  intros H. apply andb_true_iff in H as [H1 H2]. destruct ev; try discriminate; auto.
Qed.

Lemma Create_sh_cmds dflt w m :
  sh_cmds (fst (run (Create dflt w m))) = sh_cmds (fst (run (provision_stage dflt w m))).
Proof.
  unfold run, Create at 1, bind at 1.
  destruct (provision_stage dflt w m []) as [t1 [ud|e|]]; [|reflexivity..].
  assert (Hk : only_events not_sh
    (processName <- resolve_stage w m ;;
     emit (EvLaunch processName (app (create_opts m) (genDrives ud m)) (StateDir m)) ;;
     match run_err w with Some e => fail e | None => ret tt end)).
  { apply only_bind; [apply only_resolve_stage; reflexivity|]. intros pn.
    apply only_bind; [apply only_emit; reflexivity|]. intros _.
    destruct (run_err w); [apply only_fail|apply only_ret]. }
  destruct (Hk t1) as [t [E F]]. simpl. rewrite E, sh_cmds_app, (sh_cmds_not_sh t F).
  apply app_nil_r.
Qed.

Lemma provision_one_size dflt w m sz :
  AutoDriveSetup m = true -> Drives m = [] -> driveSizes dflt m = [sz] ->
  mkdirall_err w (StateDir m) = None ->
  sh_cmds (fst (run (provision_stage dflt w m))) =
    ["qemu-img create -f qcow2 " ++ path_Join [StateDir m; disk_filename m 0] ++ " " ++ sz].
Proof.
  intros Ha Hd Hs Hm. unfold run, provision_stage. rewrite Ha, Hd, Hs. simpl andb.
  cbn [length Nat.eqb]. unfold provision_loop, wrap_err, CreateDisk, bind, emit.
  rewrite Hm. destruct (sh w _) as [out [e|]]; reflexivity.
Qed.

(** C3. With auto-provisioning on and no explicit drives, [Create] runs
    exactly one [qemu-img create] (once the state directory can be
    created), for the image [<id>-0.img] joined onto the state directory:
    of size [10240M] when the sizes are ["10240"], and of the default size
    with the [M] suffix when no size is configured. *)
Theorem Create_auto_provisioning (DefaultDriveSize : string) (w : World) (m : MachineConfig)
  (Hauto : AutoDriveSetup m = true) (Hnone : Drives m = [])
  (Hdir : mkdirall_err w (StateDir m) = None) :
  (DriveSizes m = ["10240"] ->
   sh_cmds (fst (run (Create DefaultDriveSize w m))) =
     ["qemu-img create -f qcow2 " ++ path_Join [StateDir m; ID m ++ "-0.img"] ++ " 10240M"]) /\
  (DriveSizes m = [] ->
   sh_cmds (fst (run (Create DefaultDriveSize w m))) =
     ["qemu-img create -f qcow2 " ++ path_Join [StateDir m; ID m ++ "-0.img"] ++ " "
      ++ DefaultDriveSize ++ "M"]).
Proof.
  split; intros Hs; rewrite Create_sh_cmds.
  - rewrite (provision_one_size DefaultDriveSize w m "10240M" Hauto Hnone); [reflexivity| |exact Hdir].
    unfold driveSizes; rewrite Hs; reflexivity.
  - rewrite (provision_one_size DefaultDriveSize w m (DefaultDriveSize ++ "M") Hauto Hnone);
      [reflexivity| |exact Hdir].
    unfold driveSizes; rewrite Hs; reflexivity.
Qed.

Lemma Create_auto_provisioning_witness :
  AutoDriveSetup auto_config = true /\ Drives auto_config = [] /\
  mkdirall_err example_world (StateDir auto_config) = None /\
  sh_cmds (fst (run (Create "20000" example_world auto_config))) =
    ["qemu-img create -f qcow2 " ++ path_Join [StateDir auto_config; ID auto_config ++ "-0.img"]
     ++ " 10240M"].
Proof.
  split; [reflexivity|]. split; [reflexivity|]. split; [reflexivity|].
  exact (proj1 (Create_auto_provisioning "20000" example_world auto_config
                  eq_refl eq_refl eq_refl) eq_refl).
Defined.

(** ** C4: where the boot directive sits in the launch arguments *)

Lemma provision_loop_drives w m i sizes acc tr t ud :
  provision_loop w m i sizes acc tr = (t, Ret ud) ->
  ud = app acc (map (fun j => path_Join [StateDir m; disk_filename m j]) (seq i (length sizes))).
Proof.
  revert i acc tr. induction sizes as [|s sizes IH]; intros i acc tr H; simpl in H.
  - injection H as _ <-. simpl. now rewrite app_nil_r.
  - unfold bind at 1 in H.
    destruct (wrap_err _ (CreateDisk w m (disk_filename m i) s) tr) as [t1 [u|e|]];
      try discriminate.
    apply IH in H. rewrite H, <- app_assoc. reflexivity.
Qed.

Lemma provision_stage_drives dflt w m tr t ud :
  provision_stage dflt w m tr = (t, Ret ud) -> ud = effective_drives dflt m.
Proof.
  unfold provision_stage, effective_drives. destruct (_ && _).
  - apply provision_loop_drives.
  - unfold ret. now intros [= _ <-].
Qed.

Lemma no_event_forallb (P : event -> bool) ev t :
  forallb P t = true -> P ev = false -> ~ In ev t.
Proof.
  intros H Hev Hin. rewrite forallb_forall in H. rewrite (H ev Hin) in Hev. discriminate.
Qed.

Lemma create_opts_boot_last m : exists pre, create_opts m = app pre ["-boot"; "order=dc,menu=on"].
Proof. unfold create_opts. eexists. reflexivity. Qed.

(** C4 (counterexample). With one explicit drive, the launch arguments end
    with the drive's device token, after the boot directive. *)
Lemma boot_last_claim_fails_with_a_drive : ~ boot_last_claim "20000" example_world disk_config.
Proof.
  intros H.
  destruct (H "/usr/bin/qemu-system-x86_64"
              (app (create_opts disk_config) (genDrives (Drives disk_config) disk_config))
              "/tmp/peg/vm") as [pre Hpre].
  { vm_compute. left. reflexivity. }
  replace (app pre ["-boot"; "order=dc,menu=on"])
    with (app (app pre ["-boot"]) ["order=dc,menu=on"]) in Hpre
    by (rewrite <- app_assoc; reflexivity).
  apply (f_equal (fun l => last l "")) in Hpre. rewrite last_last in Hpre.
  vm_compute in Hpre. discriminate Hpre.
Qed.

(** C4 (amended). Whenever [Create] launches the process, its arguments are
    the option block, which ends with [-boot order=dc,menu=on], followed by
    the drive and removable-media tokens of [genDrives] for the drives in
    use; the boot directive is last only when [genDrives] emits nothing. *)
Theorem Create_launch_args (DefaultDriveSize : string) (w : World) (m : MachineConfig)
  (name : string) (args : list string) (sd : string)
  (Hlaunch : In (EvLaunch name args sd) (fst (run (Create DefaultDriveSize w m)))) :
  args = app (create_opts m) (genDrives (effective_drives DefaultDriveSize m) m) /\
  (exists pre, create_opts m = app pre ["-boot"; "order=dc,menu=on"]).
Proof.
  split; [|apply create_opts_boot_last].
  unfold run, Create at 1, bind at 1 in Hlaunch.
  destruct (only_provision_stage not_launch DefaultDriveSize w m ltac:(reflexivity)
              ltac:(reflexivity) []) as [t1 [E1 F1]].
  destruct (provision_stage DefaultDriveSize w m []) as [tr1 [ud|e|]] eqn:EP;
    simpl in E1; subst tr1;
    [|exfalso; exact (no_event_forallb not_launch (EvLaunch name args sd) _ F1 eq_refl Hlaunch)..].
  apply provision_stage_drives in EP. subst ud.
  unfold bind at 1 in Hlaunch.
  destruct (only_resolve_stage not_launch w m ltac:(reflexivity) ltac:(reflexivity) t1)
    as [t2 [E2 F2]].
  assert (F12 : forallb not_launch (app t1 t2) = true) by (now rewrite forallb_app, F1, F2).
  destruct (resolve_stage w m t1) as [tr2 [pn|e|]]; simpl in E2; subst tr2;
    [|exfalso; exact (no_event_forallb not_launch (EvLaunch name args sd) _ F12 eq_refl Hlaunch)..].
  unfold bind, emit in Hlaunch.
  destruct (run_err w); simpl in Hlaunch; apply in_app_iff in Hlaunch as [H|H];
    try (exfalso; exact (no_event_forallb not_launch (EvLaunch name args sd) _ F12 eq_refl H));
    destruct H as [H|[]]; injection H as _ <- _; reflexivity.
Qed.

Lemma Create_launch_args_witness :
  In (EvLaunch "/usr/bin/qemu-system-x86_64"
        (app (create_opts disk_config) (genDrives (Drives disk_config) disk_config)) "/tmp/peg/vm")
     (fst (run (Create "20000" example_world disk_config))) /\
  app (create_opts disk_config) (genDrives (Drives disk_config) disk_config) =
  app (create_opts disk_config) (genDrives (effective_drives "20000" disk_config) disk_config).
Proof.
  assert (H : In (EvLaunch "/usr/bin/qemu-system-x86_64"
        (app (create_opts disk_config) (genDrives (Drives disk_config) disk_config)) "/tmp/peg/vm")
     (fst (run (Create "20000" example_world disk_config)))) by (vm_compute; left; reflexivity).
  split; [exact H|]. exact (proj1 (Create_launch_args "20000" example_world disk_config _ _ _ H)).
Defined.

(** ** C9: resolving the QEMU binary *)

Lemma search_common_all_missing w b ps tr :
  (forall p, In p ps -> stat_ok w (path_Join [p; b]) = false) ->
  search_common w b ps tr = (app tr (map (fun p => EvStat (path_Join [p; b])) ps), Ret None).
Proof.
  revert tr. induction ps as [|p ps IH]; intros tr H; simpl.
  - now rewrite app_nil_r.
  - unfold bind at 1, emit at 1. rewrite H by (left; reflexivity).
    rewrite IH by (intros p' Hp'; apply H; right; exact Hp').
    now rewrite <- app_assoc.
Qed.

Lemma search_common_none w b ps tr t :
  search_common w b ps tr = (t, Ret None) ->
  forall p, In p ps -> stat_ok w (path_Join [p; b]) = false.
Proof.
  revert tr. induction ps as [|p ps IH]; intros tr H q Hq; [destruct Hq|].
  simpl in H. unfold bind at 1, emit at 1 in H.
  destruct (stat_ok w (path_Join [p; b])) eqn:Es; [discriminate H|].
  destruct Hq as [<-|Hq]; [exact Es|exact (IH _ H q Hq)].
Qed.

Lemma findQEMUBinary_not_found w arch e tr :
  (forall p, In p commonPaths -> stat_ok w (path_Join [p; "qemu-system-" ++ arch]) = false) ->
  lookpath w ("qemu-system-" ++ arch) = Err e ->
  findQEMUBinary w arch tr =
    (app tr (app (map (fun p => EvStat (path_Join [p; "qemu-system-" ++ arch])) commonPaths)
                 [EvLookPath ("qemu-system-" ++ arch)]),
     Fail ("qemu-system-" ++ arch ++ " not found in common paths or PATH: " ++ e)).
Proof.
  intros Hs Hl. unfold findQEMUBinary, bind at 1.
  rewrite search_common_all_missing by exact Hs.
  unfold bind, emit. rewrite Hl. now rewrite <- app_assoc.
Qed.

(** C9 (counterexample). With no binary in any common location nor in
    [PATH], the error [Create] returns does not name [/usr/local/bin/],
    one of the searched locations. *)
Lemma names_locations_claim_fails : ~ names_locations_claim "20000" nobin_world example_config.
Proof.
  intros H.
  assert (E : snd (run (Create "20000" nobin_world example_config)) =
              Fail ("failed to find QEMU binary: qemu-system-x86_64 not found in common paths or PATH: "
                    ++ go_lookpath_err "qemu-system-x86_64")) by (vm_compute; reflexivity).
  specialize (H _ E "/usr/local/bin/" ltac:(right; left; reflexivity)).
  vm_compute in H. discriminate H.
Qed.

(** C9 (amended). Without a process override, the binary is looked up in
    the five common locations in list order and only then in [PATH]; when
    none has it, [Create] fails without launching the hypervisor, and once
    the disks are provisioned the error is
    ["failed to find QEMU binary: qemu-system-<arch> not found in common
    paths or PATH: "] followed by the [PATH] lookup's error. *)
Theorem Create_binary_not_found (DefaultDriveSize : string) (w : World) (m : MachineConfig)
  (e : string)
  (Hproc : Process m = "")
  (Hstat : forall p, In p commonPaths ->
           stat_ok w (path_Join [p; "qemu-system-" ++ Arch m]) = false)
  (Hlook : lookpath w ("qemu-system-" ++ Arch m) = Err e) :
  run (findQEMUBinary w (Arch m)) =
    (app (map (fun p => EvStat (path_Join [p; "qemu-system-" ++ Arch m])) commonPaths)
         [EvLookPath ("qemu-system-" ++ Arch m)],
     Fail ("qemu-system-" ++ Arch m ++ " not found in common paths or PATH: " ++ e)) /\
  (forall name args sd, ~ In (EvLaunch name args sd) (fst (run (Create DefaultDriveSize w m)))) /\
  (exists err, snd (run (Create DefaultDriveSize w m)) = Fail err) /\
  (forall t ud, run (provision_stage DefaultDriveSize w m) = (t, Ret ud) ->
   snd (run (Create DefaultDriveSize w m)) =
     Fail ("failed to find QEMU binary: " ++ "qemu-system-" ++ Arch m
           ++ " not found in common paths or PATH: " ++ e)).
Proof.
  assert (HR : forall tr, resolve_stage w m tr =
    (app tr (app (map (fun p => EvStat (path_Join [p; "qemu-system-" ++ Arch m])) commonPaths)
                 [EvLookPath ("qemu-system-" ++ Arch m)]),
     Fail ("failed to find QEMU binary: " ++ "qemu-system-" ++ Arch m
           ++ " not found in common paths or PATH: " ++ e))).
  { intros tr. unfold resolve_stage. rewrite Hproc. cbn [negb String.eqb].
    unfold wrap_err. cbv beta. rewrite (findQEMUBinary_not_found w (Arch m) e) by assumption.
    reflexivity. }
  split; [unfold run; rewrite (findQEMUBinary_not_found w (Arch m) e) by assumption; reflexivity|].
  destruct (only_provision_stage not_launch DefaultDriveSize w m ltac:(reflexivity)
              ltac:(reflexivity) []) as [t1 [E1 F1]].
  unfold run, Create, bind.
  destruct (provision_stage DefaultDriveSize w m []) as [tr1 [ud|e'|]] eqn:EP;
    simpl in E1; subst tr1.
  - rewrite HR. simpl. split; [|split; [eexists; reflexivity|intros; reflexivity]].
    intros name args sd Hin. apply in_app_iff in Hin as [Hin|Hin].
    + exact (no_event_forallb not_launch (EvLaunch name args sd) _ F1 eq_refl Hin).
    + simpl in Hin. repeat (destruct Hin as [Hin|Hin]; [discriminate Hin|]). destruct Hin.
  - split; [|split; [eexists; reflexivity|intros t ud H; discriminate H]].
    intros name args sd Hin. exact (no_event_forallb not_launch (EvLaunch name args sd) _ F1 eq_refl Hin).
  - exfalso. revert EP. unfold provision_stage. destruct (_ && _).
    + clear. generalize 0 as i, (Drives m) as acc, (@nil event) as tr.
      induction (driveSizes DefaultDriveSize m) as [|s l IH]; intros i acc tr; simpl;
        [discriminate|].
      unfold bind at 1, wrap_err at 1, CreateDisk, bind, emit.
      destruct (mkdirall_err w (StateDir m)); [discriminate|].
      destruct (sh w _) as [out [x|]]; [discriminate|apply IH].
    + discriminate.
Qed.

Lemma Create_binary_not_found_witness :
  Process example_config = "" /\
  (forall p, In p commonPaths ->
   stat_ok nobin_world (path_Join [p; "qemu-system-" ++ Arch example_config]) = false) /\
  lookpath nobin_world ("qemu-system-" ++ Arch example_config)
    = Err (go_lookpath_err "qemu-system-x86_64") /\
  (exists err, snd (run (Create "20000" nobin_world example_config)) = Fail err).
Proof.
  split; [reflexivity|]. split; [intros; reflexivity|]. split; [reflexivity|].
  exact (proj1 (proj2 (proj2 (Create_binary_not_found "20000" nobin_world example_config
           (go_lookpath_err "qemu-system-x86_64") eq_refl (fun _ _ => eq_refl) eq_refl)))).
Defined.

(** ** Joining a directory and a plain file name *)

Lemma split_app_sep_gen c a b :
  split c (a ++ String c b) = app (split c a) (split c b).
Proof.
  induction a as [|x a IH]; simpl.
  - now rewrite Ascii.eqb_refl.
  - destruct (Ascii.eqb x c); [now rewrite IH|].
    rewrite IH. destruct (split c a) eqn:E; [exfalso; exact (split_nonempty c a E)|].
    reflexivity.
Qed.

Lemma join_with_snoc sep l x :
  l <> [] -> join_with sep (app l [x]) = join_with sep l ++ sep ++ x.
Proof.
  induction l as [|y l IH]; intros H; [contradiction|].
  destruct l as [|z l]; [reflexivity|].
  specialize (IH ltac:(discriminate)). cbn [app] in IH |- *.
  change (join_with sep (y :: z :: app l [x])) with (y ++ sep ++ join_with sep (z :: app l [x])).
  change (join_with sep (y :: z :: l)) with (y ++ sep ++ join_with sep (z :: l)).
  rewrite IH, !string_app_assoc. reflexivity.
Qed.

Lemma path_Join_two s x :
  s <> "" -> path_Join [s; x] = path_Clean ((s ++ "/") ++ x).
Proof.
  intros Hs. unfold path_Join. simpl.
  destruct s as [|c s]; [contradiction|]. simpl. reflexivity.
Qed.

Lemma join_with_rev_nil sep st : join_with sep (rev st) <> "" -> st <> [].
Proof. intros H ->. apply H. reflexivity. Qed.

(** Joining a plain file name onto a directory [s] gives [Clean(s)/name]
    unless [s] cleans to [/] or [.]. *)
Lemma path_Join_plain_name s x :
  s <> "" -> path_Clean s <> "/" -> path_Clean s <> "." ->
  has_char "/" x = false -> x <> "" -> x <> "." -> x <> ".." ->
  path_Join [s; x] = path_Clean s ++ "/" ++ x.
Proof.
  intros Hs Hr Hd Hx Hx0 Hx1 Hx2. rewrite path_Join_two by exact Hs.
  unfold path_Clean in *.
  assert (Hne : String.eqb ((s ++ "/") ++ x) "" = false).
  { destruct s; [contradiction|reflexivity]. }
  assert (Hrt : is_rooted ((s ++ "/") ++ x) = is_rooted s).
  { destruct s; [contradiction|reflexivity]. }
  rewrite Hne, Hrt. rewrite (proj2 (String.eqb_neq _ _) Hs) in *.
  rewrite string_app_assoc. simpl append.
  rewrite split_app_sep_gen, (split_no_sep _ _ Hx), fold_left_app. simpl fold_left.
  assert (Hstep : forall b st0, clean_step b st0 x = x :: st0).
  { intros b st0. unfold clean_step.
    rewrite (proj2 (String.eqb_neq _ _) Hx0), (proj2 (String.eqb_neq _ _) Hx1),
            (proj2 (String.eqb_neq _ _) Hx2). reflexivity. }
  rewrite !Hstep.
  set (st := fold_left (clean_step (is_rooted s)) (split "/" s) []) in *.
  simpl rev.
  destruct (is_rooted s).
  - assert (Hb : join_with "/" (rev st) <> "").
    { intros E. apply Hr. rewrite E. reflexivity. }
    rewrite join_with_snoc by (intros E; apply (join_with_rev_nil "/" st Hb);
                                 apply (f_equal (@rev string)) in E; rewrite rev_involutive in E;
                                 exact E).
    reflexivity.
  - destruct (String.eqb (join_with "/" (rev st)) "") eqn:Eb; [contradiction Hd; reflexivity|].
    apply String.eqb_neq in Eb.
    rewrite join_with_snoc by (intros E; apply (join_with_rev_nil "/" st Eb);
                                 apply (f_equal (@rev string)) in E; rewrite rev_involutive in E;
                                 exact E).
    destruct (join_with "/" (rev st)); [contradiction|reflexivity].
Qed.

(** ** The monitor commands *)

Lemma only_with_conn_close P {A} (m : M A) :
  P EvConnClose = true -> only_events P m -> only_events P (with_conn_close m).
Proof.
  intros HC Hm tr. destruct (Hm tr) as [t [E F]]. unfold with_conn_close.
  destruct (m tr) as [tr1 [a|e|]]; simpl in E |- *; subst tr1;
    try (exists (app t [EvConnClose]); rewrite app_assoc, forallb_app, F; simpl; rewrite HC;
         split; reflexivity).
  exists t. split; [reflexivity|exact F].
Qed.

Lemma only_drain P rs : P EvRead = true -> only_events P (drain rs).
Proof.
  intros HR. induction rs as [|r rs IH]; simpl.
  - intros tr. exists []. now rewrite app_nil_r.
  - apply only_bind; [apply only_emit, HR|]. intros _.
    destruct r; [apply only_ret|apply IH].
Qed.

Lemma only_send_command P w cmd :
  P (EvWrite cmd) = true -> P EvSetReadDeadline = true -> P EvRead = true ->
  only_events P (send_command w cmd).
Proof.
  intros HW HD HR. unfold send_command. apply only_bind; [apply only_emit, HW|]. intros _.
  destruct (write w cmd) as [n [e|]]; [apply only_fail|].
  destruct (negb _); [apply only_fail|].
  apply only_bind; [apply only_emit, HD|]. intros _.
  destruct (deadline_err w); [apply only_fail|apply only_drain, HR].
Qed.

Lemma send_command_write_err w cmd n e tr :
  write w cmd = (n, Some e) -> send_command w cmd tr = (app tr [EvWrite cmd], Fail e).
Proof. intros H. unfold send_command, bind, emit. rewrite H. reflexivity. Qed.

Lemma send_command_short w cmd n tr :
  write w cmd = (n, None) -> n <> String.length cmd ->
  send_command w cmd tr = (app tr [EvWrite cmd], Fail (short_write_msg n (String.length cmd))).
Proof.
  intros H Hn. unfold send_command, bind, emit. rewrite H.
  apply Nat.eqb_neq in Hn. rewrite Hn. reflexivity.
Qed.

Lemma send_command_full w cmd tr :
  write w cmd = (String.length cmd, None) -> deadline_err w = None ->
  send_command w cmd tr = drain (reads w) (app (app tr [EvWrite cmd]) [EvSetReadDeadline]).
Proof.
  intros H HD. unfold send_command, bind at 1, emit at 1. rewrite H, Nat.eqb_refl.
  cbn [negb]. unfold bind, emit. rewrite HD. reflexivity.
Qed.

Lemma drain_until_error k e rest tr :
  drain (app (repeat None k) (Some e :: rest)) tr = (app tr (repeat EvRead (S k)), Ret tt).
Proof.
  revert tr. induction k as [|k IH]; intros tr; [reflexivity|].
  simpl app. simpl drain. unfold bind at 1, emit at 1. rewrite IH, <- app_assoc. reflexivity.
Qed.

Lemma run_emit_first {A} ev (k : unit -> M A) :
  only_events (fun _ => true) (k tt) -> hd_error (fst (run (bind (emit ev) k))) = Some ev.
Proof.
  intros H. unfold run, bind, emit. simpl app.
  destruct (H [ev]) as [t [E _]]. destruct (k tt [ev]) as [tr o]. simpl in E |- *.
  now rewrite E.
Qed.

Lemma Screenshot_first_event w m :
  hd_error (fst (run (Screenshot w m))) = Some (EvDial (monitorSockFile m)).
Proof.
  unfold Screenshot. apply run_emit_first.
  destruct (dial_err w (monitorSockFile m)); [apply only_fail|].
  apply only_with_conn_close; [reflexivity|].
  apply only_bind; [apply only_emit; reflexivity|]. intros _.
  destruct (create_temp w _ _) as [name|e]; [|apply only_fail].
  repeat (apply only_bind; [apply only_emit; reflexivity|]; intros _).
  apply only_bind; [apply only_send_command; reflexivity|]. intros _. apply only_ret.
Qed.

Lemma DetachCD_first_event w m :
  hd_error (fst (run (DetachCD w m))) = Some (EvDial (monitorSockFile m)).
Proof.
  unfold DetachCD. apply run_emit_first.
  destruct (dial_err w (monitorSockFile m)); [apply only_fail|].
  apply only_with_conn_close; [reflexivity|]. apply only_send_command; reflexivity.
Qed.

(** ** C5: the monitor socket path *)

(** C5 (counterexample). The socket is not [<state-dir>/monitor.sock]. *)
Lemma monitor_sock_not_monitor_dot_sock :
  monitorSockFile example_config <> StateDir example_config ++ "/monitor.sock".
Proof. vm_compute. discriminate. Qed.

(** C5 (amended). The monitor socket is [path.Join(<state-dir>,
    "qemu-monitor.sock")], a function of the state directory alone; for a
    non-empty state directory that does not clean to [/] or [.] it is
    [Clean(<state-dir>)/qemu-monitor.sock]. [Create] passes it in the
    [-monitor] option, and [Screenshot] and [DetachCD] dial it first. *)
Theorem monitor_socket_path (w : World) (m : MachineConfig) :
  monitorSockFile m = path_Join [StateDir m; "qemu-monitor.sock"] /\
  (forall m', StateDir m' = StateDir m -> monitorSockFile m' = monitorSockFile m) /\
  (StateDir m <> "" -> path_Clean (StateDir m) <> "/" -> path_Clean (StateDir m) <> "." ->
   monitorSockFile m = path_Clean (StateDir m) ++ "/qemu-monitor.sock") /\
  nth_error (create_opts m) 7 = Some ("unix:" ++ monitorSockFile m ++ ",server,nowait") /\
  hd_error (fst (run (Screenshot w m))) = Some (EvDial (monitorSockFile m)) /\
  hd_error (fst (run (DetachCD w m))) = Some (EvDial (monitorSockFile m)).
Proof.
  split; [reflexivity|]. split; [intros m' H; unfold monitorSockFile; now rewrite H|].
  split; [intros H1 H2 H3; apply path_Join_plain_name; solve [assumption|reflexivity|discriminate]|].
  split; [|split; [apply Screenshot_first_event|apply DetachCD_first_event]].
  unfold create_opts.
  destruct (negb (DisableDefaultNetworking m)), (negb (String.eqb (CPUType m) "")),
           (String.eqb (Arch m) "aarch64"); reflexivity.
Qed.

Lemma monitor_socket_path_witness :
  monitorSockFile example_config = "/tmp/peg/vm/qemu-monitor.sock".
Proof.
  destruct (monitor_socket_path example_world example_config) as [_ [_ [H _]]].
  rewrite H; [reflexivity|discriminate|vm_compute; discriminate|vm_compute; discriminate].
Defined.

(** ** C6: failed writes on the monitor channel *)

(** C6 (counterexample). A write that stops after 5 of the 19 bytes of the
    eject line and reports the connection's error makes [DetachCD] fail
    with that error, not with the byte counts. *)
Lemma eject_partial_write_claim_fails :
  ~ eject_partial_write_claim short_write_world example_config.
Proof.
  unfold eject_partial_write_claim. intros H.
  destruct H as [H1 _]; [reflexivity|vm_compute; intros E; discriminate E|].
  vm_compute in H1. discriminate H1.
Qed.

(** C6 (amended). For both monitor commands the result of the write is
    checked in this order: a write error fails the operation with that
    error; otherwise a byte count different from the length of the command
    line fails it with [didn't send the full command (n out of len bytes)].
    In both cases no read deadline is set and the drain loop is not
    entered: the trace has neither a deadline nor a read. *)
Theorem monitor_write_failures (w : World) (m : MachineConfig) (name : string)
    (Hdial : dial_err w (monitorSockFile m) = None)
    (Htemp : create_temp w "" "qemu-screenshot-*.png" = Ok name) :
  (forall n e, write w ("eject -f ide0-cd0" ++ crlf) = (n, Some e) ->
     snd (run (DetachCD w m)) = Fail e /\
     forallb no_drain (fst (run (DetachCD w m))) = true) /\
  (forall n, write w ("eject -f ide0-cd0" ++ crlf) = (n, None) ->
     n <> String.length ("eject -f ide0-cd0" ++ crlf) ->
     snd (run (DetachCD w m)) =
       Fail (short_write_msg n (String.length ("eject -f ide0-cd0" ++ crlf))) /\
     forallb no_drain (fst (run (DetachCD w m))) = true) /\
  (forall n e, write w ("screendump " ++ name ++ crlf) = (n, Some e) ->
     snd (run (Screenshot w m)) = Fail e /\
     forallb no_drain (fst (run (Screenshot w m))) = true) /\
  (forall n, write w ("screendump " ++ name ++ crlf) = (n, None) ->
     n <> String.length ("screendump " ++ name ++ crlf) ->
     snd (run (Screenshot w m)) =
       Fail (short_write_msg n (String.length ("screendump " ++ name ++ crlf))) /\
     forallb no_drain (fst (run (Screenshot w m))) = true).
Proof.
  unfold run, DetachCD, Screenshot. rewrite Hdial, Htemp.
  cbv beta iota delta [bind emit with_conn_close].
  split; [|split; [|split]].
  - intros n e Hw. rewrite (send_command_write_err _ _ n e _ Hw). split; reflexivity.
  - intros n Hw Hn. rewrite (send_command_short _ _ n _ Hw Hn). split; reflexivity.
  - intros n e Hw. rewrite (send_command_write_err _ _ n e _ Hw). split; reflexivity.
  - intros n Hw Hn. rewrite (send_command_short _ _ n _ Hw Hn). split; reflexivity.
Qed.

Lemma monitor_write_failures_witness :
  snd (run (DetachCD short_write_world example_config)) =
    Fail "write unix ->/tmp/peg/vm/qemu-monitor.sock: broken pipe".
Proof.
  destruct (monitor_write_failures short_write_world example_config
              "/tmp/qemu-screenshot-1.png" eq_refl eq_refl) as [H _].
  destruct (H 5 "write unix ->/tmp/peg/vm/qemu-monitor.sock: broken pipe" eq_refl) as [H1 _].
  exact H1.
Defined.

(** ** C7: the drain loop ends on the first read error *)

(** C7. Once the command line is fully written and the read deadline set,
    the first read error (whatever it is, a deadline timeout included)
    ends the drain, the connection is closed and the command succeeds:
    [Screenshot] returns the name of the temporary file and [DetachCD]
    returns no error. The traces read [k + 1] times when [k] reads succeed
    before the first failing one. *)
Theorem monitor_drain_ends_on_read_error (w : World) (m : MachineConfig)
    (name e : string) (k : nat) (rest : list (option string))
    (Hdial : dial_err w (monitorSockFile m) = None)
    (Htemp : create_temp w "" "qemu-screenshot-*.png" = Ok name)
    (Hshot : write w ("screendump " ++ name ++ crlf) =
               (String.length ("screendump " ++ name ++ crlf), None))
    (Heject : write w ("eject -f ide0-cd0" ++ crlf) =
               (String.length ("eject -f ide0-cd0" ++ crlf), None))
    (Hdeadline : deadline_err w = None)
    (Hreads : reads w = app (repeat None k) (Some e :: rest)) :
  run (Screenshot w m) =
    (app [EvDial (monitorSockFile m); EvCreateTemp "" "qemu-screenshot-*.png";
          EvFileClose name; EvRemove name; EvWrite ("screendump " ++ name ++ crlf);
          EvSetReadDeadline]
         (app (repeat EvRead (S k)) [EvConnClose]), Ret name) /\
  run (DetachCD w m) =
    (app [EvDial (monitorSockFile m); EvWrite ("eject -f ide0-cd0" ++ crlf); EvSetReadDeadline]
         (app (repeat EvRead (S k)) [EvConnClose]), Ret tt).
Proof.
  unfold run, DetachCD, Screenshot. rewrite Hdial, Htemp.
  cbv beta iota delta [bind emit with_conn_close].
  rewrite (send_command_full _ _ _ Hshot Hdeadline), (send_command_full _ _ _ Heject Hdeadline).
  rewrite Hreads, !drain_until_error. split; reflexivity.
Qed.

Lemma monitor_drain_ends_on_read_error_witness :
  snd (run (Screenshot example_world example_config)) = Ret "/tmp/qemu-screenshot-1.png" /\
  snd (run (DetachCD example_world example_config)) = Ret tt.
Proof.
  destruct (monitor_drain_ends_on_read_error example_world example_config
              "/tmp/qemu-screenshot-1.png" "i/o timeout" 1 []
              eq_refl eq_refl eq_refl eq_refl eq_refl eq_refl) as [H1 H2].
  rewrite H1, H2. split; reflexivity.
Defined.

(** ** C10: removing the state directory *)

Lemma filter_in_tree root fs p :
  In p (filter (fun q => negb (in_tree root q)) fs) <-> In p fs /\ in_tree root p = false.
Proof. rewrite filter_In. destruct (in_tree root p); simpl; intuition discriminate. Qed.




(* ================================================================== *)
(** * Further properties of the driver *)

(** ** Drive ids and the devices that attach them *)

Lemma pairs_app_even (l r : list string) :
  Nat.even (length l) = true -> pairs (app l r) = app (pairs l) (pairs r).
Proof.
  intros H. apply Nat.even_spec in H as [n Hn]. revert l Hn.
  induction n as [|n IH]; intros [|a [|b l]] Hn; simpl in *; try lia; [reflexivity|].
  f_equal. apply IH. lia.
Qed.

Lemma tokens_field_app_even flag key l r :
  Nat.even (length l) = true ->
  tokens_field flag key (app l r) = app (tokens_field flag key l) (tokens_field flag key r).
Proof. intros H. unfold tokens_field. rewrite pairs_app_even by exact H. apply flat_map_app. Qed.

Lemma field_of_second key a b rest :
  has_char "," a = false -> strip_prefix key a = None -> has_char "," (key ++ b) = false ->
  field_of key (a ++ String "," ((key ++ b) ++ String "," rest)) = Some b.
Proof.
  intros Ha Hk Hb. unfold field_of.
  rewrite split_app_sep by exact Ha. rewrite split_app_sep by exact Hb.
  simpl. rewrite Hk, strip_prefix_app. reflexivity.
Qed.

Lemma has_char_drv key k : has_char "," key = false -> has_char "," (key ++ ("drv" ++ show_nat k)) = false.
Proof. intros H. rewrite !has_char_app, H, show_nat_no_comma. reflexivity. Qed.

Lemma field_user_drive k d :
  field_of "id=" ("if=none,id=" ++ ("drv" ++ show_nat k) ++ ",file=" ++ d) = Some ("drv" ++ show_nat k).
Proof.
  replace ("if=none,id=" ++ ("drv" ++ show_nat k) ++ ",file=" ++ d)
    with ("if=none" ++ String "," (("id=" ++ ("drv" ++ show_nat k)) ++ String "," ("file=" ++ d)))
    by (simpl; repeat rewrite string_app_assoc; reflexivity).
  apply field_of_second; [reflexivity|reflexivity|apply has_char_drv; reflexivity].
Qed.

Lemma field_user_device k n :
  field_of "drive=" ("virtio-blk-pci,drive=" ++ ("drv" ++ show_nat k) ++ ",bootindex=" ++ n)
  = Some ("drv" ++ show_nat k).
Proof.
  replace ("virtio-blk-pci,drive=" ++ ("drv" ++ show_nat k) ++ ",bootindex=" ++ n)
    with ("virtio-blk-pci" ++ String "," (("drive=" ++ ("drv" ++ show_nat k)) ++ String "," ("bootindex=" ++ n)))
    by (simpl; repeat rewrite string_app_assoc; reflexivity).
  apply field_of_second; [reflexivity|reflexivity|apply has_char_drv; reflexivity].
Qed.

Lemma field_media_drive k f :
  field_of "id=" ("if=none,id=" ++ ("drv" ++ show_nat k) ++ ",media=cdrom,file=" ++ f)
  = Some ("drv" ++ show_nat k).
Proof.
  replace ("if=none,id=" ++ ("drv" ++ show_nat k) ++ ",media=cdrom,file=" ++ f)
    with ("if=none" ++ String "," (("id=" ++ ("drv" ++ show_nat k)) ++ String "," ("media=cdrom,file=" ++ f)))
    by (simpl; repeat rewrite string_app_assoc; reflexivity).
  apply field_of_second; [reflexivity|reflexivity|apply has_char_drv; reflexivity].
Qed.

Lemma field_media_device k b :
  field_of "drive=" ("scsi-cd,drive=" ++ ("drv" ++ show_nat k) ++ ",bus=scsi0.0,bootindex=" ++ b)
  = Some ("drv" ++ show_nat k).
Proof.
  replace ("scsi-cd,drive=" ++ ("drv" ++ show_nat k) ++ ",bus=scsi0.0,bootindex=" ++ b)
    with ("scsi-cd" ++ String "," (("drive=" ++ ("drv" ++ show_nat k)) ++ String "," ("bus=scsi0.0,bootindex=" ++ b)))
    by (simpl; repeat rewrite string_app_assoc; reflexivity).
  apply field_of_second; [reflexivity|reflexivity|apply has_char_drv; reflexivity].
Qed.

Lemma user_tokens_ids k l :
  tokens_field "-drive" "id=" (user_tokens k l) = drv_names k (length l) /\
  tokens_field "-device" "drive=" (user_tokens k l) = drv_names k (length l).
Proof.
  revert k; induction l as [|d l IH]; intros k; [split; reflexivity|].
  cbn [user_tokens]. rewrite !tokens_field_app_even by reflexivity.
  destruct (IH (S k)) as [H1 H2]. rewrite H1, H2.
  pose proof (field_user_drive k d) as F1. pose proof (field_user_device k (show_nat (k + 1))) as F2.
  unfold tokens_field, user_pair. cbn [pairs flat_map]. rewrite F1, F2.
  split; reflexivity.
Qed.

Lemma media_ids k f b :
  tokens_field "-drive" "id=" ["-drive"; "if=none,id=" ++ ("drv" ++ show_nat k) ++ ",media=cdrom,file=" ++ f;
      "-device"; "scsi-cd,drive=" ++ ("drv" ++ show_nat k) ++ ",bus=scsi0.0,bootindex=" ++ b]
    = ["drv" ++ show_nat k] /\
  tokens_field "-device" "drive=" ["-drive"; "if=none,id=" ++ ("drv" ++ show_nat k) ++ ",media=cdrom,file=" ++ f;
      "-device"; "scsi-cd,drive=" ++ ("drv" ++ show_nat k) ++ ",bus=scsi0.0,bootindex=" ++ b]
    = ["drv" ++ show_nat k].
Proof.
  pose proof (field_media_drive k f) as F1. pose proof (field_media_device k b) as F2.
  unfold tokens_field. cbn [pairs flat_map]. rewrite F1, F2. split; reflexivity.
Qed.

Lemma media_priorities k f b :
  has_char "," b = false ->
  device_priorities ["-drive"; "if=none,id=" ++ ("drv" ++ show_nat k) ++ ",media=cdrom,file=" ++ f;
      "-device"; "scsi-cd,drive=" ++ ("drv" ++ show_nat k) ++ ",bus=scsi0.0,bootindex=" ++ b]
    = match parse_nat b with Some n => [n] | None => [] end.
Proof.
  intros Hb. pose proof (bootindex_of_scsi_cd k b Hb) as H.
  unfold device_priorities. cbn [pairs flat_map]. rewrite H. simpl. destruct (parse_nat b); reflexivity.
Qed.

(** [genDrives] in its four media cases. *)
Lemma genDrives_cases ds m :
  genDrives ds m =
    app (user_tokens 0 ds)
      (if String.eqb (ISO m) "" && String.eqb (DataSource m) "" then []
       else app ["-device"; scsi_controller]
         (app (if String.eqb (ISO m) "" then []
               else ["-drive"; "if=none,id=" ++ ("drv" ++ show_nat (length ds)) ++ ",media=cdrom,file=" ++ ISO m;
                     "-device"; "scsi-cd,drive=" ++ ("drv" ++ show_nat (length ds)) ++ ",bus=scsi0.0,bootindex=" ++ "50"])
              (if String.eqb (DataSource m) "" then []
               else ["-drive"; "if=none,id=" ++ ("drv" ++ show_nat (length ds + present (ISO m)))
                               ++ ",media=cdrom,file=" ++ DataSource m;
                     "-device"; "scsi-cd,drive=" ++ ("drv" ++ show_nat (length ds + present (ISO m)))
                                ++ ",bus=scsi0.0,bootindex=" ++ "60"]))).
Proof.
  rewrite genDrives_shape. unfold cdrom_step, addSCSIIfNeeded, present.
  destruct (String.eqb (ISO m) "") eqn:Ei, (String.eqb (DataSource m) "") eqn:Ed;
    cbn [allDrives scsiAdded id negb andb]; rewrite ?Ei, ?Ed; cbn [allDrives scsiAdded id negb andb];
    rewrite <- ?app_assoc, ?app_nil_r, ?Nat.add_0_r, ?Nat.add_1_r; reflexivity.
Qed.

Lemma drv_names_add k a b : drv_names k (a + b) = app (drv_names k a) (drv_names (k + a) b).
Proof. unfold drv_names. rewrite seq_app, map_app. reflexivity. Qed.

Lemma drv_names_one k : drv_names k 1 = ["drv" ++ show_nat k].
Proof. reflexivity. Qed.

Lemma scsi_controller_fields :
  tokens_field "-drive" "id=" ["-device"; scsi_controller] = [] /\
  tokens_field "-device" "drive=" ["-device"; scsi_controller] = [] /\
  device_priorities ["-device"; scsi_controller] = [].
Proof. split; [|split]; reflexivity. Qed.

(** [genDrives] declares its drives as [drv0], [drv1], ... in order, one
    per persistent drive and configured medium, so no id is declared twice;
    and the devices attach exactly these drives, in the same order: each
    device is bound to the drive declared just before it, and the SCSI
    controller attaches none. *)
Theorem genDrives_drive_ids (ds : list string) (m : MachineConfig) :
  tokens_field "-drive" "id=" (genDrives ds m) =
    drv_names 0 (length ds + present (ISO m) + present (DataSource m)) /\
  tokens_field "-device" "drive=" (genDrives ds m) =
    drv_names 0 (length ds + present (ISO m) + present (DataSource m)).
Proof.
  rewrite genDrives_cases. unfold present.
  destruct (user_tokens_ids 0 ds) as [H1 H2].
  destruct scsi_controller_fields as [S1 [S2 _]].
  rewrite !tokens_field_app_even by apply user_tokens_even. rewrite H1, H2.
  destruct (String.eqb (ISO m) "") eqn:Ei, (String.eqb (DataSource m) "") eqn:Ed; cbn [andb];
    rewrite ?app_nil_r, ?Nat.add_0_r; [split; reflexivity| | |];
    rewrite !tokens_field_app_even by reflexivity; rewrite S1, S2;
    repeat rewrite (proj1 (media_ids _ _ _)); repeat rewrite (proj2 (media_ids _ _ _));
    rewrite !drv_names_add, !drv_names_one; cbn [app]; rewrite ?app_nil_r, <- ?app_assoc;
    split; reflexivity.
Qed.

(** Which media [genDrives] adds and how: the SCSI controller is emitted
    exactly when at least one removable medium is configured, once, right
    after the persistent drives and before every medium; the boot
    priorities are [1..N] for the persistent drives, then 50 for the
    primary medium and 60 for the data source when they are configured. *)
Theorem genDrives_media_layout (ds : list string) (m : MachineConfig) :
  device_priorities (genDrives ds m) =
    app (seq 1 (length ds))
        (app (if String.eqb (ISO m) "" then [] else [50])
             (if String.eqb (DataSource m) "" then [] else [60])) /\
  count_occ string_dec (genDrives ds m) scsi_controller =
    (if String.eqb (ISO m) "" && String.eqb (DataSource m) "" then 0 else 1) /\
  (ISO m <> "" \/ DataSource m <> "" ->
   exists media, genDrives ds m = app (user_tokens 0 ds) ("-device" :: scsi_controller :: media) /\
                 ~ In scsi_controller media).
Proof.
  rewrite genDrives_cases.
  destruct scsi_controller_fields as [_ [_ S3]].
  rewrite device_priorities_app_even by apply user_tokens_even.
  rewrite user_tokens_priorities, count_occ_app,
          (proj1 (count_occ_not_In _ _ _) (user_tokens_no_scsi 0 ds)).
  destruct (String.eqb (ISO m) "") eqn:Ei, (String.eqb (DataSource m) "") eqn:Ed; cbn [andb].
  - rewrite (proj1 (String.eqb_eq _ _) Ei), (proj1 (String.eqb_eq _ _) Ed).
    split; [reflexivity|]. split; [reflexivity|]. intros [H|H]; congruence.
  - rewrite !device_priorities_app_even by reflexivity. rewrite S3.
    rewrite media_priorities by reflexivity.
    split; [reflexivity|]. split; [simpl; reflexivity|].
    intros _. eexists; split; [reflexivity|]. simpl. intros H.
    repeat (destruct H as [H|H]; [simpl in H; discriminate H|]). exact H.
  - rewrite !device_priorities_app_even by reflexivity. rewrite S3.
    rewrite media_priorities by reflexivity.
    split; [reflexivity|]. split; [simpl; reflexivity|].
    intros _. eexists; split; [reflexivity|]. simpl. intros H.
    repeat (destruct H as [H|H]; [simpl in H; discriminate H|]). exact H.
  - rewrite !device_priorities_app_even by reflexivity. rewrite S3.
    rewrite !media_priorities by reflexivity.
    split; [reflexivity|]. split; [simpl; reflexivity|].
    intros _. eexists; split; [reflexivity|]. simpl. intros H.
    repeat (destruct H as [H|H]; [simpl in H; discriminate H|]). exact H.
Qed.

(** ** [Create]: provisioning, its errors, and the stages after it *)

Lemma CreateDisk_ok w m d s tr :
  mkdirall_err w (StateDir m) = None ->
  snd (sh w ("qemu-img create -f qcow2 " ++ path_Join [StateDir m; d] ++ " " ++ s)) = None ->
  CreateDisk w m d s tr =
    (app tr [EvMkdirAll (StateDir m);
             EvSH ("qemu-img create -f qcow2 " ++ path_Join [StateDir m; d] ++ " " ++ s)], Ret tt).
Proof.
  intros Hm Hs. unfold CreateDisk, bind, emit. rewrite Hm.
  destruct (sh w _) as [out [e|]]; simpl in Hs; [discriminate|].
  rewrite <- app_assoc. reflexivity.
Qed.

Lemma provision_loop_ok w m i sizes acc tr :
  mkdirall_err w (StateDir m) = None ->
  (forall j s, snd (sh w (qemu_img_cmd m j s)) = None) ->
  provision_loop w m i sizes acc tr =
    (app tr (flat_map (fun j_s => [EvMkdirAll (StateDir m); EvSH (qemu_img_cmd m (fst j_s) (snd j_s))])
                      (combine (seq i (length sizes)) sizes)),
     Ret (app acc (map (fun j => path_Join [StateDir m; disk_filename m j]) (seq i (length sizes))))).
Proof.
  intros Hm Hs. revert i acc tr. induction sizes as [|s sizes IH]; intros i acc tr; simpl.
  - rewrite !app_nil_r. reflexivity.
  - unfold bind at 1, wrap_err. rewrite CreateDisk_ok by (exact Hm || apply Hs).
    rewrite IH, <- !app_assoc. reflexivity.
Qed.

Lemma provision_loop_fail w m out e k : forall i sizes acc tr,
  mkdirall_err w (StateDir m) = None ->
  k < length sizes ->
  (forall j, j < k -> snd (sh w (qemu_img_cmd m (i + j) (nth j sizes ""))) = None) ->
  sh w (qemu_img_cmd m (i + k) (nth k sizes "")) = (out, Some e) ->
  provision_loop w m i sizes acc tr =
    (app tr (flat_map (fun j_s => [EvMkdirAll (StateDir m); EvSH (qemu_img_cmd m (fst j_s) (snd j_s))])
                      (firstn (S k) (combine (seq i (length sizes)) sizes))),
     Fail ("creating disk with size " ++ nth k sizes "" ++ ": " ++ out ++ " : " ++ e)).
Proof.
  induction k as [|k IH]; intros i [|s sizes] acc tr Hm Hk Hok Hf; simpl in Hk; try lia.
  - cbn [nth] in Hf. rewrite Nat.add_0_r in Hf. cbn [provision_loop].
    unfold bind at 1, wrap_err, CreateDisk, bind, emit. rewrite Hm.
    unfold qemu_img_cmd in Hf. rewrite Hf. unfold fail. cbn [firstn combine seq length flat_map fst snd nth].
    rewrite <- app_assoc, !string_app_assoc. reflexivity.
  - cbn [provision_loop]. unfold bind at 1, wrap_err.
    rewrite CreateDisk_ok; [|exact Hm|].
    2:{ pose proof (Hok 0 ltac:(lia)) as H0. rewrite Nat.add_0_r in H0. exact H0. }
    rewrite (IH (S i) sizes); [|exact Hm|lia| |].
    + simpl. rewrite <- app_assoc. reflexivity.
    + intros j Hj. replace (S i + j) with (i + S j) by lia. apply (Hok (S j)). lia.
    + replace (S i + k) with (i + S k) by lia. exact Hf.
Qed.

Lemma driveSizes_cons dflt m : exists s rest, driveSizes dflt m = s :: rest.
Proof.
  unfold driveSizes. destruct (DriveSizes m) as [|s l]; simpl; eauto.
Qed.

(** What follows provisioning in [Create]: binary resolution and launch. *)
Lemma Create_split dflt w m tr ud :
  provision_stage dflt w m [] = (tr, Ret ud) ->
  run (Create dflt w m) =
    (processName <- resolve_stage w m ;;
     emit (EvLaunch processName (app (create_opts m) (genDrives ud m)) (StateDir m)) ;;
     match run_err w with Some e => fail e | None => ret tt end) tr.
Proof. intros H. unfold run, Create, bind at 1. rewrite H. reflexivity. Qed.

Lemma only_create_tail P w m ud :
  (forall p, P (EvStat p) = true) -> (forall f, P (EvLookPath f) = true) ->
  (forall n a s, P (EvLaunch n a s) = true) ->
  only_events P
    (processName <- resolve_stage w m ;;
     emit (EvLaunch processName (app (create_opts m) (genDrives ud m)) (StateDir m)) ;;
     match run_err w with Some e => fail e | None => ret tt end).
Proof.
  intros HS HL HN. apply only_bind; [apply only_resolve_stage; assumption|]. intros pn.
  apply only_bind; [apply only_emit, HN|]. intros _.
  destruct (run_err w); [apply only_fail|apply only_ret].
Qed.

(** With auto-provisioning on, no explicit drive, and the state directory
    and every [qemu-img] call succeeding, [Create] starts by provisioning
    one image per configured size, in order ([<size>M] for each configured
    size, or the default size alone when none is configured): for image
    [i] it creates the state directory, then runs [qemu-img create] for
    [<id>-<i>.img] in it. Nothing it does afterwards provisions again. *)
Theorem Create_provisions_disks (DefaultDriveSize : string) (w : World) (m : MachineConfig)
  (Hauto : AutoDriveSetup m = true) (Hnone : Drives m = [])
  (Hdir : mkdirall_err w (StateDir m) = None)
  (Hsh : forall j s, snd (sh w (qemu_img_cmd m j s)) = None) :
  exists rest,
    fst (run (Create DefaultDriveSize w m)) =
      app (flat_map (fun j_s => [EvMkdirAll (StateDir m); EvSH (qemu_img_cmd m (fst j_s) (snd j_s))])
             (enumerate (match DriveSizes m with
                         | [] => [DefaultDriveSize ++ "M"]
                         | l => map (fun s => s ++ "M") l
                         end)))
          rest /\
    forallb not_provision rest = true.
Proof.
  assert (Hsz : driveSizes DefaultDriveSize m =
                match DriveSizes m with [] => [DefaultDriveSize ++ "M"] | l => map (fun s => s ++ "M") l end)
    by (unfold driveSizes; destruct (DriveSizes m); reflexivity).
  rewrite <- Hsz. set (sizes := driveSizes DefaultDriveSize m).
  set (T := flat_map (fun j_s => [EvMkdirAll (StateDir m); EvSH (qemu_img_cmd m (fst j_s) (snd j_s))])
                     (combine (seq 0 (length sizes)) sizes)).
  set (U := map (fun j => path_Join [StateDir m; disk_filename m j]) (seq 0 (length sizes))).
  assert (HP : provision_stage DefaultDriveSize w m [] = (app [] T, Ret (app [] U))).
  { unfold provision_stage. rewrite Hauto, Hnone. simpl andb.
    apply provision_loop_ok; assumption. }
  rewrite (Create_split DefaultDriveSize w m _ _ HP).
  destruct (only_create_tail not_provision w m (app [] U)
              ltac:(reflexivity) ltac:(reflexivity) ltac:(reflexivity) (app [] T)) as [t [E F]].
  exists t. split; [exact E|exact F].
Qed.

Lemma Create_provisions_disks_witness :
  AutoDriveSetup auto_config = true /\ Drives auto_config = [] /\
  mkdirall_err example_world (StateDir auto_config) = None /\
  (forall j s, snd (sh example_world (qemu_img_cmd auto_config j s)) = None) /\
  exists rest,
    fst (run (Create "20000" example_world auto_config)) =
      app [EvMkdirAll "/tmp/peg/vm"; EvSH (qemu_img_cmd auto_config 0 "10240M")] rest /\
    forallb not_provision rest = true.
Proof.
  split; [reflexivity|]. split; [reflexivity|]. split; [reflexivity|].
  split; [intros; reflexivity|].
  exact (Create_provisions_disks "20000" example_world auto_config eq_refl eq_refl eq_refl
           (fun _ _ => eq_refl)).
Defined.

(** Errors of auto-provisioning stop [Create] at once, wrapped as
    [creating disk with size <size>: ...]: when the state directory cannot
    be created, at the first image and before any [qemu-img]; when the
    [qemu-img] call of image [k] fails, after the first [k] images were
    made, with its output and error. Nothing is resolved or launched. *)
Theorem Create_provisioning_errors (DefaultDriveSize : string) (w : World) (m : MachineConfig)
  (Hauto : AutoDriveSetup m = true) (Hnone : Drives m = []) :
  (forall e, mkdirall_err w (StateDir m) = Some e ->
     run (Create DefaultDriveSize w m) =
       ([EvMkdirAll (StateDir m)],
        Fail ("creating disk with size " ++ hd "" (driveSizes DefaultDriveSize m) ++ ": " ++ e))) /\
  (forall k out e,
     mkdirall_err w (StateDir m) = None ->
     k < length (driveSizes DefaultDriveSize m) ->
     (forall j, j < k ->
        snd (sh w (qemu_img_cmd m j (nth j (driveSizes DefaultDriveSize m) ""))) = None) ->
     sh w (qemu_img_cmd m k (nth k (driveSizes DefaultDriveSize m) "")) = (out, Some e) ->
     run (Create DefaultDriveSize w m) =
       (flat_map (fun j_s => [EvMkdirAll (StateDir m); EvSH (qemu_img_cmd m (fst j_s) (snd j_s))])
                 (firstn (S k) (enumerate (driveSizes DefaultDriveSize m))),
        Fail ("creating disk with size " ++ nth k (driveSizes DefaultDriveSize m) "" ++ ": "
              ++ out ++ " : " ++ e))).
Proof.
  split.
  - intros e He. destruct (driveSizes_cons DefaultDriveSize m) as [s [rest Hs]].
    unfold run, Create, provision_stage. rewrite Hauto, Hnone, Hs. simpl andb.
    cbn [provision_loop hd]. unfold bind, wrap_err, CreateDisk, bind, emit. rewrite He.
    unfold fail. cbv beta iota. rewrite !string_app_assoc. reflexivity.
  - intros k out e Hm Hk Hok Hf.
    unfold run, Create, bind at 1, provision_stage. rewrite Hauto, Hnone. cbn [andb length Nat.eqb].
    rewrite (provision_loop_fail w m out e k 0); [reflexivity|exact Hm|exact Hk|exact Hok|exact Hf].
Qed.


Lemma Create_provisioning_errors_witness :
  AutoDriveSetup auto_config = true /\ Drives auto_config = [] /\
  run (Create "20000" failing_img_world auto_config) =
    ([EvMkdirAll "/tmp/peg/vm"; EvSH (qemu_img_cmd auto_config 0 "10240M")],
     Fail "creating disk with size 10240M: qemu-img: error : exit status 1").
Proof.
  split; [reflexivity|]. split; [reflexivity|].
  destruct (Create_provisioning_errors "20000" failing_img_world auto_config eq_refl eq_refl)
    as [_ H].
  rewrite (H 0 "qemu-img: error" "exit status 1" eq_refl); [reflexivity|simpl; lia| |reflexivity].
  intros j Hj. lia.
Defined.

(** Without auto-provisioning, or with explicit drives, [Create] creates
    no directory and runs no [qemu-img]; once the binary is resolved it
    launches it with the option block followed by the tokens of the
    configured drives, and returns the launch error, if any. *)
Theorem Create_without_provisioning (DefaultDriveSize : string) (w : World) (m : MachineConfig)
  (Hno : AutoDriveSetup m = false \/ Drives m <> []) :
  forallb not_provision (fst (run (Create DefaultDriveSize w m))) = true /\
  (forall t p, resolve_stage w m [] = (t, Ret p) ->
     run (Create DefaultDriveSize w m) =
       (app t [EvLaunch p (app (create_opts m) (genDrives (Drives m) m)) (StateDir m)],
        match run_err w with Some e => Fail e | None => Ret tt end)).
Proof.
  assert (HP : provision_stage DefaultDriveSize w m [] = ([], Ret (Drives m))).
  { unfold provision_stage.
    destruct Hno as [H|H]; [rewrite H; reflexivity|].
    destruct (Drives m) as [|d l]; [contradiction|]. rewrite andb_false_r. reflexivity. }
  rewrite (Create_split DefaultDriveSize w m _ _ HP). split.
  - destruct (only_create_tail not_provision w m (Drives m)
                ltac:(reflexivity) ltac:(reflexivity) ltac:(reflexivity) []) as [t [E F]].
    rewrite E. exact F.
  - intros t p Hr. unfold bind at 1. rewrite Hr. unfold bind, emit.
    destruct (run_err w); reflexivity.
Qed.

Lemma Create_without_provisioning_witness :
  (AutoDriveSetup disk_config = false \/ Drives disk_config <> []) /\
  forallb not_provision (fst (run (Create "20000" example_world disk_config))) = true.
Proof.
  split; [left; reflexivity|].
  exact (proj1 (Create_without_provisioning "20000" example_world disk_config
                  (or_introl eq_refl))).
Defined.

(** With an explicit process, [Create] neither looks in the common
    locations nor in [PATH]: once provisioning is done it launches that
    process with the option block followed by the drive tokens. *)
Theorem Create_process_override (DefaultDriveSize : string) (w : World) (m : MachineConfig)
  (Hp : Process m <> "") :
  forallb not_resolve (fst (run (Create DefaultDriveSize w m))) = true /\
  (forall t ud, provision_stage DefaultDriveSize w m [] = (t, Ret ud) ->
     run (Create DefaultDriveSize w m) =
       (app t [EvLaunch (Process m) (app (create_opts m) (genDrives ud m)) (StateDir m)],
        match run_err w with Some e => Fail e | None => Ret tt end)).
Proof.
  assert (Hres : resolve_stage w m = ret (Process m)).
  { unfold resolve_stage. apply String.eqb_neq in Hp. rewrite Hp. reflexivity. }
  split.
  - assert (H : only_events not_resolve (Create DefaultDriveSize w m)).
    { unfold Create. rewrite Hres.
      apply only_bind; [apply only_provision_stage; reflexivity|]. intros ud.
      apply only_bind; [apply only_ret|]. intros pn.
      apply only_bind; [apply only_emit; reflexivity|]. intros _.
      destruct (run_err w); [apply only_fail|apply only_ret]. }
    destruct (H []) as [t [E F]]. unfold run. rewrite E. exact F.
  - intros t ud HP. rewrite (Create_split DefaultDriveSize w m _ _ HP), Hres.
    unfold bind, ret, emit. destruct (run_err w); reflexivity.
Qed.

Lemma Create_process_override_witness :
  Process disk_config <> "" /\
  run (Create "20000" example_world disk_config) =
    ([EvLaunch "/usr/bin/qemu-system-x86_64"
        (app (create_opts disk_config) (genDrives ["/tmp/peg/disk.img"] disk_config)) "/tmp/peg/vm"],
     Ret tt).
Proof.
  split; [discriminate|].
  exact (proj2 (Create_process_override "20000" example_world disk_config ltac:(discriminate))
           [] ["/tmp/peg/disk.img"] eq_refl).
Defined.

(** ** [findQEMUBinary]: the search order *)

Lemma search_common_hit w b k : forall ps p tr,
  nth_error ps k = Some p ->
  (forall j q, j < k -> nth_error ps j = Some q -> stat_ok w (path_Join [q; b]) = false) ->
  stat_ok w (path_Join [p; b]) = true ->
  search_common w b ps tr =
    (app tr (map (fun q => EvStat (path_Join [q; b])) (firstn (S k) ps)), Ret (Some (path_Join [p; b]))).
Proof.
  induction k as [|k IH]; intros [|q ps] p tr Hk Hmiss Hhit; try discriminate.
  - injection Hk as <-. cbn [search_common]. unfold bind, emit. rewrite Hhit. reflexivity.
  - cbn [search_common]. unfold bind at 1, emit.
    rewrite (Hmiss 0 q ltac:(lia) eq_refl).
    rewrite (IH ps p); [|exact Hk| |exact Hhit].
    + rewrite <- app_assoc. reflexivity.
    + intros j q' Hj Hq. apply (Hmiss (S j) q'); [lia|exact Hq].
Qed.

(** [findQEMUBinary] checks the common locations in list order and stops
    at the first one holding [qemu-system-<arch>], returning that path
    without consulting [PATH]; only when no common location has it does it
    look the binary up in [PATH], returning what the lookup finds. *)
Theorem findQEMUBinary_search_order (w : World) (arch : string) :
  (forall k p, nth_error commonPaths k = Some p ->
     (forall j q, j < k -> nth_error commonPaths j = Some q ->
        stat_ok w (path_Join [q; "qemu-system-" ++ arch]) = false) ->
     stat_ok w (path_Join [p; "qemu-system-" ++ arch]) = true ->
     run (findQEMUBinary w arch) =
       (map (fun q => EvStat (path_Join [q; "qemu-system-" ++ arch])) (firstn (S k) commonPaths),
        Ret (path_Join [p; "qemu-system-" ++ arch]))) /\
  ((forall p, In p commonPaths -> stat_ok w (path_Join [p; "qemu-system-" ++ arch]) = false) ->
   forall r, lookpath w ("qemu-system-" ++ arch) = Ok r ->
     run (findQEMUBinary w arch) =
       (app (map (fun q => EvStat (path_Join [q; "qemu-system-" ++ arch])) commonPaths)
            [EvLookPath ("qemu-system-" ++ arch)], Ret r)).
Proof.
  split.
  - intros k p Hk Hmiss Hhit. unfold run, findQEMUBinary, bind at 1.
    rewrite (search_common_hit w _ k commonPaths p [] Hk Hmiss Hhit). reflexivity.
  - intros Hmiss r Hl. unfold run, findQEMUBinary, bind at 1.
    rewrite (search_common_all_missing w _ commonPaths [] Hmiss).
    unfold bind, emit. rewrite Hl. reflexivity.
Qed.

(** The candidate paths: for an architecture name without a slash, the
    binary is looked for directly in each common directory. *)
Theorem commonPaths_candidates (arch : string) (Harch : has_char "/" arch = false) :
  map (fun p => path_Join [p; "qemu-system-" ++ arch]) commonPaths =
    ["/home/linuxbrew/.linuxbrew/bin/qemu-system-" ++ arch;
     "/usr/local/bin/qemu-system-" ++ arch;
     "/usr/bin/qemu-system-" ++ arch;
     "/opt/homebrew/bin/qemu-system-" ++ arch;
     "/usr/local/homebrew/bin/qemu-system-" ++ arch].
Proof.
  assert (H : forall p, p <> "" -> path_Clean p <> "/" -> path_Clean p <> "." ->
              path_Join [p; "qemu-system-" ++ arch] = path_Clean p ++ "/" ++ ("qemu-system-" ++ arch)).
  { intros p H1 H2 H3. apply path_Join_plain_name; try assumption;
      first [discriminate | simpl; exact Harch]. }
  unfold commonPaths. cbn [map].
  rewrite !H by (vm_compute; discriminate).
  vm_compute path_Clean. repeat rewrite <- string_app_assoc. reflexivity.
Qed.

Lemma commonPaths_candidates_witness :
  has_char "/" "x86_64" = false /\
  nth_error (map (fun p => path_Join [p; "qemu-system-" ++ "x86_64"]) commonPaths) 2 =
    Some "/usr/bin/qemu-system-x86_64".
Proof.
  split; [reflexivity|].
  rewrite (commonPaths_candidates "x86_64" eq_refl). reflexivity.
Defined.

(** ** The option block of [Create] *)

Ltac destruct_opts m :=
  unfold create_opts; cbv zeta;
  destruct (DisableDefaultNetworking m), (String.eqb (CPUType m) "") eqn:?,
           (String.eqb (Arch m) "aarch64") eqn:?; cbn [negb].

Lemma create_opts_display_in m x :
  In x (split " " (if String.eqb (Display m) "" then "-nographic" else Display m)) ->
  In x (create_opts m).
Proof. intros H. destruct_opts m; rewrite !in_app_iff; simpl; tauto. Qed.

Lemma split_double_sep c a b : In "" (split c (a ++ String c (String c b))).
Proof.
  rewrite split_app_sep_gen. apply in_or_app. right. simpl. rewrite Ascii.eqb_refl. left. reflexivity.
Qed.

(** The display setting is split on single spaces ([strings.Split]): an
    empty setting gives [-nographic], placed right after the fixed options
    and the networking pair; a setting with two consecutive spaces passes
    an empty argument to QEMU. *)
Theorem create_opts_display (m : MachineConfig) :
  (Display m = "" ->
   nth_error (create_opts m) (if DisableDefaultNetworking m then 10 else 12) = Some "-nographic") /\
  (forall a b, Display m = a ++ "  " ++ b -> In "" (create_opts m)).
Proof.
  split.
  - intros H. destruct_opts m; rewrite H; rewrite <- !app_assoc; reflexivity.
  - intros a b H. apply create_opts_display_in.
    assert (Hne : String.eqb (Display m) "" = false).
    { rewrite H. destruct a; reflexivity. }
    rewrite Hne, H. apply split_double_sep.
Qed.

(** ** The monitor commands: the connection and the drain *)

Lemma Screenshot_cases w m :
  run (Screenshot w m) =
    match dial_err w (monitorSockFile m) with
    | Some e => ([EvDial (monitorSockFile m)], Fail e)
    | None =>
        match create_temp w "" "qemu-screenshot-*.png" with
        | Err e => ([EvDial (monitorSockFile m); EvCreateTemp "" "qemu-screenshot-*.png"; EvConnClose],
                    Fail e)
        | Ok name =>
            match send_command w ("screendump " ++ name ++ crlf)
                    [EvDial (monitorSockFile m); EvCreateTemp "" "qemu-screenshot-*.png";
                     EvFileClose name; EvRemove name] with
            | (tr, Ret _) => (app tr [EvConnClose], Ret name)
            | (tr, Fail e) => (app tr [EvConnClose], Fail e)
            | (tr, Blocked) => (tr, Blocked)
            end
        end
    end.
Proof.
  unfold run, Screenshot, bind, emit, with_conn_close, fail, ret.
  destruct (dial_err w (monitorSockFile m)); [reflexivity|].
  destruct (create_temp w "" "qemu-screenshot-*.png") as [name|e]; [|reflexivity].
  cbn [app]. destruct (send_command w _ _) as [tr [u|e|]]; reflexivity.
Qed.

Lemma DetachCD_cases w m :
  run (DetachCD w m) =
    match dial_err w (monitorSockFile m) with
    | Some e => ([EvDial (monitorSockFile m)], Fail e)
    | None =>
        match send_command w ("eject -f ide0-cd0" ++ crlf) [EvDial (monitorSockFile m)] with
        | (tr, Ret u) => (app tr [EvConnClose], Ret u)
        | (tr, Fail e) => (app tr [EvConnClose], Fail e)
        | (tr, Blocked) => (tr, Blocked)
        end
    end.
Proof.
  unfold run, DetachCD, bind, emit, with_conn_close, fail.
  destruct (dial_err w (monitorSockFile m)); [reflexivity|].
  cbn [app]. destruct (send_command w _ _) as [tr [u|e|]]; reflexivity.
Qed.

Lemma send_command_no_close w cmd pre :
  forallb (fun ev => negb (is_conn_close ev)) pre = true ->
  forallb (fun ev => negb (is_conn_close ev)) (fst (send_command w cmd pre)) = true.
Proof.
  intros Hpre.
  destruct (only_send_command (fun ev => negb (is_conn_close ev)) w cmd eq_refl eq_refl eq_refl pre)
    as [t [E F]].
  rewrite E, forallb_app, Hpre, F. reflexivity.
Qed.

(** The connection to the monitor: when dialling fails, [Screenshot] and
    [DetachCD] fail with the dial error and do nothing else; when the
    temporary file cannot be created, [Screenshot] closes the connection
    and fails without sending anything. Once dialled, whenever a command
    returns (with or without an error) it has closed the connection
    exactly once, as its last action. *)
Theorem monitor_connection_handling (w : World) (m : MachineConfig) :
  (forall e, dial_err w (monitorSockFile m) = Some e ->
     run (Screenshot w m) = ([EvDial (monitorSockFile m)], Fail e) /\
     run (DetachCD w m) = ([EvDial (monitorSockFile m)], Fail e)) /\
  (forall e, dial_err w (monitorSockFile m) = None ->
     create_temp w "" "qemu-screenshot-*.png" = Err e ->
     run (Screenshot w m) =
       ([EvDial (monitorSockFile m); EvCreateTemp "" "qemu-screenshot-*.png"; EvConnClose], Fail e)) /\
  (dial_err w (monitorSockFile m) = None -> snd (run (Screenshot w m)) <> Blocked ->
     exists t, fst (run (Screenshot w m)) = app t [EvConnClose] /\
               forallb (fun ev => negb (is_conn_close ev)) t = true) /\
  (dial_err w (monitorSockFile m) = None -> snd (run (DetachCD w m)) <> Blocked ->
     exists t, fst (run (DetachCD w m)) = app t [EvConnClose] /\
               forallb (fun ev => negb (is_conn_close ev)) t = true).
Proof.
  rewrite Screenshot_cases, DetachCD_cases. split; [|split; [|split]].
  - intros e H. rewrite H. split; reflexivity.
  - intros e H Ht. rewrite H, Ht. reflexivity.
  - intros H. rewrite H.
    destruct (create_temp w "" "qemu-screenshot-*.png") as [name|e].
    + pose proof (send_command_no_close w ("screendump " ++ name ++ crlf)
                    [EvDial (monitorSockFile m); EvCreateTemp "" "qemu-screenshot-*.png";
                     EvFileClose name; EvRemove name] eq_refl) as F.
      destruct (send_command w _ _) as [tr [u|e|]]; simpl in F |- *; intros Hb;
        [exists tr; split; [reflexivity|exact F]..|contradiction Hb; reflexivity].
    + intros _. exists [EvDial (monitorSockFile m); EvCreateTemp "" "qemu-screenshot-*.png"].
      split; reflexivity.
  - intros H. rewrite H.
    pose proof (send_command_no_close w ("eject -f ide0-cd0" ++ crlf)
                  [EvDial (monitorSockFile m)] eq_refl) as F.
    destruct (send_command w _ _) as [tr [u|e|]]; simpl in F |- *; intros Hb;
      [exists tr; split; [reflexivity|exact F]..|contradiction Hb; reflexivity].
Qed.

Lemma drain_ret rs tr u : snd (drain rs tr) = Ret u -> exists e, In (Some e) rs.
Proof.
  revert tr. induction rs as [|r rs IH]; intros tr H; simpl in H; [discriminate|].
  unfold bind, emit in H. destruct r as [e|].
  - exists e. left. reflexivity.
  - destruct (IH _ H) as [e He]. exists e. right. exact He.
Qed.

Lemma send_command_ret w cmd tr u :
  snd (send_command w cmd tr) = Ret u -> exists e, In (Some e) (reads w).
Proof.
  unfold send_command, bind, emit. destruct (write w cmd) as [n [e|]]; [discriminate|].
  destruct (negb _); [discriminate|]. destruct (deadline_err w); [discriminate|].
  apply drain_ret.
Qed.

Lemma send_command_ret_shape w cmd pre u :
  snd (send_command w cmd pre) = Ret u ->
  (exists t, fst (send_command w cmd pre) = app pre (EvWrite cmd :: EvSetReadDeadline :: t) /\
             forallb (fun ev => negb (not_read ev)) t = true) /\
  exists e, In (Some e) (reads w).
Proof.
  intros H. destruct (write w cmd) as [n [e|]] eqn:HW.
  - rewrite (send_command_write_err w cmd n e pre HW) in H. discriminate.
  - destruct (Nat.eq_dec n (String.length cmd)) as [->|Hn].
    + destruct (deadline_err w) as [e|] eqn:HD.
      * unfold send_command, bind, emit in H. rewrite HW, Nat.eqb_refl, HD in H. discriminate.
      * rewrite (send_command_full w cmd pre HW HD) in H |- *. split.
        -- destruct (only_drain (fun ev => negb (not_read ev)) (reads w) eq_refl
                       (app (app pre [EvWrite cmd]) [EvSetReadDeadline])) as [t [E F]].
           exists t. rewrite E, <- !app_assoc. split; [reflexivity|exact F].
        -- exact (drain_ret _ _ _ H).
    + rewrite (send_command_short w cmd n pre HW Hn) in H. discriminate.
Qed.

(** A monitor command never succeeds without a read error: the drain
    loop ends only on one, and otherwise the command is still reading.
    A successful command dialled, wrote its command line, set the read
    deadline, did nothing but read, and closed the connection, in this
    order; [Screenshot] had created, closed and removed the temporary file
    before writing [screendump] for it, and returns its name. *)
Theorem monitor_success_requires_read_error (w : World) (m : MachineConfig) :
  (forall name, snd (run (Screenshot w m)) = Ret name ->
     create_temp w "" "qemu-screenshot-*.png" = Ok name /\
     (exists t, fst (run (Screenshot w m)) =
        app [EvDial (monitorSockFile m); EvCreateTemp "" "qemu-screenshot-*.png";
             EvFileClose name; EvRemove name; EvWrite ("screendump " ++ name ++ crlf);
             EvSetReadDeadline] (app t [EvConnClose]) /\
        forallb (fun ev => negb (not_read ev)) t = true) /\
     exists e, In (Some e) (reads w)) /\
  (snd (run (DetachCD w m)) = Ret tt ->
     (exists t, fst (run (DetachCD w m)) =
        app [EvDial (monitorSockFile m); EvWrite ("eject -f ide0-cd0" ++ crlf); EvSetReadDeadline]
            (app t [EvConnClose]) /\
        forallb (fun ev => negb (not_read ev)) t = true) /\
     exists e, In (Some e) (reads w)).
Proof.
  rewrite Screenshot_cases, DetachCD_cases. split.
  - intros name H.
    destruct (dial_err w (monitorSockFile m)); [discriminate|].
    destruct (create_temp w "" "qemu-screenshot-*.png") as [name'|e]; [|discriminate].
    pose proof (send_command_ret_shape w ("screendump " ++ name' ++ crlf)
                  [EvDial (monitorSockFile m); EvCreateTemp "" "qemu-screenshot-*.png";
                   EvFileClose name'; EvRemove name']) as HR.
    destruct (send_command w _ _) as [tr [u|e|]]; simpl in H, HR; try discriminate.
    injection H as <-. destruct (HR u eq_refl) as [[t [Et Ft]] Hread].
    split; [reflexivity|]. split; [|exact Hread].
    exists t. split; [|exact Ft]. cbn [fst]. rewrite Et. reflexivity.
  - intros H. destruct (dial_err w (monitorSockFile m)); [discriminate|].
    pose proof (send_command_ret_shape w ("eject -f ide0-cd0" ++ crlf) [EvDial (monitorSockFile m)]) as HR.
    destruct (send_command w _ _) as [tr [u|e|]]; simpl in H, HR; try discriminate.
    destruct (HR u eq_refl) as [[t [Et Ft]] Hread]. split; [|exact Hread].
    exists t. split; [|exact Ft]. cbn [fst]. rewrite Et. reflexivity.
Qed.

(** ** [VM.Destroy] *)


(** ** Paths under the state directory *)

Lemma show_nat_no_slash n : has_char "/" (show_nat n) = false.
Proof. unfold show_nat. induction (Nat.to_uint n); simpl; auto. Qed.

Lemma disk_filename_plain m i :
  has_char "/" (ID m) = false ->
  has_char "/" (disk_filename m i) = false /\ disk_filename m i <> "" /\
  disk_filename m i <> "." /\ disk_filename m i <> "..".
Proof.
  intros Hid. unfold disk_filename.
  split; [rewrite !has_char_app, Hid, show_nat_no_slash; reflexivity|].
  destruct (ID m) as [|c1 [|c2 [|c3 s]]]; simpl; repeat split; discriminate.
Qed.

(** With an empty state directory, [path.Join] drops it: the monitor
    socket QEMU is told to create, and the commands dial, is
    [qemu-monitor.sock] in the working directory. The disk images
    [Create] provisions under a state directory that does not clean to [/]
    or [.] are [Clean(<state-dir>)/<id>-<i>.img], for an ID without a
    slash; [qemu-img] is given that path, and [Create] records it as the
    drive. *)
Theorem state_dir_paths (m : MachineConfig) (Hid : has_char "/" (ID m) = false) :
  (StateDir m = "" -> monitorSockFile m = "qemu-monitor.sock") /\
  (StateDir m <> "" -> path_Clean (StateDir m) <> "/" -> path_Clean (StateDir m) <> "." ->
   forall i s, qemu_img_cmd m i s =
     "qemu-img create -f qcow2 " ++ (path_Clean (StateDir m) ++ "/" ++ disk_filename m i) ++ " " ++ s /\
     path_Join [StateDir m; disk_filename m i] =
       path_Clean (StateDir m) ++ "/" ++ disk_filename m i).
Proof.
  split.
  - intros Hs. unfold monitorSockFile. rewrite Hs. reflexivity.
  - intros Hs Hr Hd i sz. destruct (disk_filename_plain m i Hid) as [H [H0 [H1 H2]]].
    assert (HJ : path_Join [StateDir m; disk_filename m i] =
                 path_Clean (StateDir m) ++ "/" ++ disk_filename m i)
      by (apply path_Join_plain_name; assumption).
    unfold qemu_img_cmd. rewrite HJ. split; reflexivity.
Qed.

Lemma state_dir_paths_witness :
  has_char "/" (ID example_config) = false /\
  path_Join [StateDir example_config; disk_filename example_config 0] = "/tmp/peg/vm/vm-0.img".
Proof.
  split; [reflexivity|].
  destruct (state_dir_paths example_config eq_refl) as [_ H].
  destruct (H ltac:(discriminate) ltac:(vm_compute; discriminate) ltac:(vm_compute; discriminate)
              0 "10240M") as [_ H2].
  rewrite H2. reflexivity.
Defined.
